(** * Scene manager of the geometrical-acoustics simulator

    A shallow embedding of
    [resonance_audio/geometrical_acoustics/scene_manager.cc] and the
    properties of its scene construction, its reflection-kernel registry and
    its callback adapters.

    Conventions.
    - [size_t] and [unsigned int] values (vector sizes, loop counters,
      triangle indices, geometry identifiers) are natural numbers: the only
      arithmetic the file performs on them is [3 * i + k] below a buffer
      length and [size()], neither of which wraps.  The [int] vertex indices
      of a triangle are integers.
    - [float] is an opaque type: the file copies floats and never computes
      with them.  [ReflectionKernel], [RTCRayHit] and [RTCBounds] are opaque
      for the same reason.
    - The ray-tracing engine is modelled as a store of reference-counted
      objects addressed by handles, so that a handle used after
      [rtcAttachGeometry] and [rtcReleaseGeometry] denotes the very object
      the scene holds.  Geometries are created on the one device there is:
      [g_device] of [BuildScene] and [BuildListenerScene] is [device_].
    - [assert] is taken as compiled in.
    - A [std::unordered_set] argument is the sequence in which its iterator
      yields its elements; the properties hold for every such sequence. *)

From Stdlib Require Import ZArith.
From stdpp Require Import gmap list fin_maps.

(** ** The engine's enumerations *)

Inductive RTCGeometryType : Set :=
  | RTC_GEOMETRY_TYPE_TRIANGLE
  | RTC_GEOMETRY_TYPE_USER.

Inductive RTCBuildQuality : Set :=
  | RTC_BUILD_QUALITY_LOW
  | RTC_BUILD_QUALITY_MEDIUM
  | RTC_BUILD_QUALITY_HIGH.

Inductive RTCBufferType : Set :=
  | RTC_BUFFER_TYPE_INDEX
  | RTC_BUFFER_TYPE_VERTEX.

Inductive RTCFormat : Set :=
  | RTC_FORMAT_UINT3
  | RTC_FORMAT_FLOAT3.

#[global] Instance RTCBufferType_eq_dec : EqDecision RTCBufferType.
Proof. solve_decision. Defined.

#[global] Instance RTCBufferType_countable : Countable RTCBufferType.
Proof.
  refine (inj_countable'
    (λ t, match t with
          | RTC_BUFFER_TYPE_INDEX => 0
          | RTC_BUFFER_TYPE_VERTEX => 1
          end)
    (λ n, match n with
          | 0 => RTC_BUFFER_TYPE_INDEX
          | _ => RTC_BUFFER_TYPE_VERTEX
          end) _).
  by intros [].
Defined.

(** Handles of engine objects ([RTCGeometry], [RTCScene]). *)
Abbreviation handle := nat.

(** [sizeof(float)] and [sizeof(int)], in bytes. *)
Definition sizeof_float : nat := 4.
Definition sizeof_int : nat := 4.

(** Outcome of a callback: it returns, or its [assert] fires, or it reads
    outside the memory it was given. *)
Inductive outcome (A : Type) : Type :=
  | Returned (a : A)
  | AssertionFailed
  | OutOfRange.
Arguments Returned {A} a.
Arguments AssertionFailed {A}.
Arguments OutOfRange {A}.

Section geometrical_acoustics.

Context {float ReflectionKernel RTCRayHit RTCBounds : Type}.

(** ** Input data ([mesh.h], [acoustic_listener.h], [sphere.h]) *)

Record Vertex : Type := { vertex_x : float; vertex_y : float; vertex_z : float }.

Record Triangle : Set := { v0 : Z; v1 : Z; v2 : Z }.

(** Only the position of a listener is read here. *)
Record AcousticListener : Type := { position : nat -> float }.

Record Sphere : Type := {
  center : float * float * float;
  radius : float;
  geometry_id : nat
}.

(** [SphereBounds] and [SphereIntersection] live in [sphere.cc]. *)
Context (SphereBounds : Sphere -> RTCBounds -> RTCBounds).
Context (SphereIntersection : Sphere -> RTCRayHit -> RTCRayHit).

(** ** Callback arguments *)

Record RTCBoundsFunctionArguments : Type := {
  bounds_geometryUserPtr : list Sphere;
  bounds_primID : nat;
  bounds_timeStep : nat;
  bounds_o : RTCBounds
}.

Record RTCIntersectFunctionNArguments : Type := {
  valid : list Z;
  geometryUserPtr : list Sphere;
  primID : nat;
  rayhit : RTCRayHit;
  args_N : nat
}.

(** What an intersection callback leaves behind: the ray/hit record and the
    calls it made to the sphere intersection routine. *)
Record IntersectEffect : Type := {
  ray_after : RTCRayHit;
  intersection_calls : list (Sphere * RTCRayHit)
}.

Definition RTCBoundsFunc : Type :=
  RTCBoundsFunctionArguments -> outcome RTCBounds.
Definition RTCIntersectFunc : Type :=
  RTCIntersectFunctionNArguments -> outcome IntersectEffect.

(** ** The adapters *)

(** [EmbreeSphereBoundsFunction]: the bounds of the sphere at the primitive
    index, written to the output record. *)
Definition EmbreeSphereBoundsFunction : RTCBoundsFunc := fun args =>
  let user_data := bounds_geometryUserPtr args in
  let index := bounds_primID args in
  let output_bounds := bounds_o args in
  let spheres := user_data in
  match spheres !! index with
  | Some sphere => Returned (SphereBounds sphere output_bounds)
  | None => OutOfRange
  end.

(** [EmbreeSphereIntersectFunction]: the engine marks a valid ray by -1 in
    its slot of the validity mask; the adapter reads the first slot. *)
Definition EmbreeSphereIntersectFunction : RTCIntersectFunc := fun args =>
  let vvalid_in := valid args in
  let user_data := geometryUserPtr args in
  let ray := rayhit args in
  let N_in := args_N args in
  let index := primID args in
  if negb (N_in =? 1) then AssertionFailed else
  match vvalid_in !! 0 with
  | None => OutOfRange
  | Some valid0 =>
    if negb (valid0 =? -1)%Z then
      Returned {| ray_after := ray; intersection_calls := [] |}
    else
      let spheres := user_data in
      match spheres !! index with
      | Some sphere =>
        Returned {| ray_after := SphereIntersection sphere ray;
                    intersection_calls := [(sphere, ray)] |}
      | None => OutOfRange
      end
  end.

(** ** The ray-tracing engine

    A 4-byte cell of a geometry buffer holds a float or an integer; [None]
    is a cell that was allocated and never written. *)

Inductive scalar : Type :=
  | F32 (f : float)
  | I32 (i : Z).

Abbreviation buffer := (list (option scalar)).

(** A geometry object.  [user_data] is the memory block the user pointer
    points to, read by the callbacks as an array of spheres; the null
    pointer is the empty block. *)
Record RTCGeometryObject : Type := {
  ref_count : nat;
  geometry_type : RTCGeometryType;
  build_quality : RTCBuildQuality;
  time_step_count : nat;
  user_primitive_count : nat;
  buffers : gmap (RTCBufferType * nat) buffer;
  user_data : list Sphere;
  bounds_function : option RTCBoundsFunc;
  intersect_function : option RTCIntersectFunc
}.

(** A scene: the attached geometries, the geometry identifier of each being
    its position in the list, and whether the scene was committed. *)
Record RTCSceneObject : Set := {
  attached : list handle;
  committed : bool
}.

Record RTCDeviceState : Type := {
  geometries : gmap handle RTCGeometryObject;
  scenes : gmap handle RTCSceneObject;
  next_handle : handle
}.

Definition set_geometries
    (f : gmap handle RTCGeometryObject -> gmap handle RTCGeometryObject)
    (d : RTCDeviceState) : RTCDeviceState :=
  {| geometries := f (geometries d); scenes := scenes d;
     next_handle := next_handle d |}.

Definition set_scenes
    (f : gmap handle RTCSceneObject -> gmap handle RTCSceneObject)
    (d : RTCDeviceState) : RTCDeviceState :=
  {| geometries := geometries d; scenes := f (scenes d);
     next_handle := next_handle d |}.

Definition set_next_handle (n : handle) (d : RTCDeviceState) : RTCDeviceState :=
  {| geometries := geometries d; scenes := scenes d; next_handle := n |}.

(** Engine calls: a call on a handle that denotes no live object, or a
    write outside a buffer, has no result. *)
Definition E (A : Type) : Type := RTCDeviceState -> option (A * RTCDeviceState).

Definition update_geometry (geom : handle)
    (f : RTCGeometryObject -> option RTCGeometryObject) : E unit := fun d =>
  match geometries d !! geom with
  | Some g =>
    match f g with
    | Some g' => Some (tt, set_geometries (<[geom := g']>) d)
    | None => None
    end
  | None => None
  end.

Definition new_geometry (type : RTCGeometryType) : RTCGeometryObject :=
  {| ref_count := 1; geometry_type := type;
     build_quality := RTC_BUILD_QUALITY_MEDIUM;
     time_step_count := 1; user_primitive_count := 0;
     buffers := ∅; user_data := [];
     bounds_function := None; intersect_function := None |}.

Definition rtcNewGeometry (type : RTCGeometryType) : E handle := fun d =>
  let h := next_handle d in
  Some (h, set_next_handle (S h)
             (set_geometries (<[h := new_geometry type]>) d)).

Definition rtcSetGeometryBuildQuality (geom : handle) (q : RTCBuildQuality)
    : E unit :=
  update_geometry geom (fun g => Some
    {| ref_count := ref_count g; geometry_type := geometry_type g;
       build_quality := q;
       time_step_count := time_step_count g;
       user_primitive_count := user_primitive_count g;
       buffers := buffers g; user_data := user_data g;
       bounds_function := bounds_function g;
       intersect_function := intersect_function g |}).

Definition rtcSetGeometryTimeStepCount (geom : handle) (n : nat) : E unit :=
  update_geometry geom (fun g => Some
    {| ref_count := ref_count g; geometry_type := geometry_type g;
       build_quality := build_quality g;
       time_step_count := n;
       user_primitive_count := user_primitive_count g;
       buffers := buffers g; user_data := user_data g;
       bounds_function := bounds_function g;
       intersect_function := intersect_function g |}).

Definition rtcSetGeometryUserPrimitiveCount (geom : handle) (n : nat)
    : E unit :=
  update_geometry geom (fun g => Some
    {| ref_count := ref_count g; geometry_type := geometry_type g;
       build_quality := build_quality g;
       time_step_count := time_step_count g;
       user_primitive_count := n;
       buffers := buffers g; user_data := user_data g;
       bounds_function := bounds_function g;
       intersect_function := intersect_function g |}).

Definition rtcSetGeometryUserData (geom : handle) (ptr : list Sphere)
    : E unit :=
  update_geometry geom (fun g => Some
    {| ref_count := ref_count g; geometry_type := geometry_type g;
       build_quality := build_quality g;
       time_step_count := time_step_count g;
       user_primitive_count := user_primitive_count g;
       buffers := buffers g; user_data := ptr;
       bounds_function := bounds_function g;
       intersect_function := intersect_function g |}).

(** The user pointer handed over with the bounds function is [NULL] here
    and the adapter does not read it. *)
Definition rtcSetGeometryBoundsFunction (geom : handle) (f : RTCBoundsFunc)
    : E unit :=
  update_geometry geom (fun g => Some
    {| ref_count := ref_count g; geometry_type := geometry_type g;
       build_quality := build_quality g;
       time_step_count := time_step_count g;
       user_primitive_count := user_primitive_count g;
       buffers := buffers g; user_data := user_data g;
       bounds_function := Some f;
       intersect_function := intersect_function g |}).

Definition rtcSetGeometryIntersectFunction (geom : handle)
    (f : RTCIntersectFunc) : E unit :=
  update_geometry geom (fun g => Some
    {| ref_count := ref_count g; geometry_type := geometry_type g;
       build_quality := build_quality g;
       time_step_count := time_step_count g;
       user_primitive_count := user_primitive_count g;
       buffers := buffers g; user_data := user_data g;
       bounds_function := bounds_function g;
       intersect_function := Some f |}).

Definition set_ref_count (n : nat) (g : RTCGeometryObject) : RTCGeometryObject :=
  {| ref_count := n; geometry_type := geometry_type g;
     build_quality := build_quality g;
     time_step_count := time_step_count g;
     user_primitive_count := user_primitive_count g;
     buffers := buffers g; user_data := user_data g;
     bounds_function := bounds_function g;
     intersect_function := intersect_function g |}.

Definition set_buffers (b : gmap (RTCBufferType * nat) buffer)
    (g : RTCGeometryObject) : RTCGeometryObject :=
  {| ref_count := ref_count g; geometry_type := geometry_type g;
     build_quality := build_quality g;
     time_step_count := time_step_count g;
     user_primitive_count := user_primitive_count g;
     buffers := b; user_data := user_data g;
     bounds_function := bounds_function g;
     intersect_function := intersect_function g |}.

(** Dropping one reference: the object is destroyed with its last one. *)
Definition drop_reference (geom : handle)
    (m : gmap handle RTCGeometryObject) : gmap handle RTCGeometryObject :=
  match m !! geom with
  | Some g =>
    match ref_count g with
    | S (S n) => <[geom := set_ref_count (S n) g]> m
    | _ => delete geom m
    end
  | None => m
  end.

Definition rtcReleaseGeometry (geom : handle) : E unit := fun d =>
  match geometries d !! geom with
  | Some _ => Some (tt, set_geometries (drop_reference geom) d)
  | None => None
  end.

(** The scene takes a reference of its own; identifiers are handed out
    sequentially from 0 (nothing is ever detached here). *)
Definition rtcAttachGeometry (scene geom : handle) : E nat := fun d =>
  match scenes d !! scene, geometries d !! geom with
  | Some sc, Some g =>
    Some (length (attached sc),
          set_scenes (<[scene := {| attached := attached sc ++ [geom];
                                    committed := committed sc |}]>)
            (set_geometries (<[geom := set_ref_count (S (ref_count g)) g]>) d))
  | _, _ => None
  end.

(** A pointer into a buffer of a geometry. *)
Definition buffer_ptr : Set := handle * (RTCBufferType * nat).

(** A new buffer of [item_count] items of [byte_stride] bytes, owned by the
    geometry and bound to the given slot. *)
Definition rtcSetNewGeometryBuffer (geom : handle) (type : RTCBufferType)
    (slot : nat) (format : RTCFormat) (byte_stride item_count : nat)
    : E buffer_ptr := fun d =>
  match update_geometry geom (fun g => Some (set_buffers
          (<[(type, slot) := replicate (byte_stride `div` 4 * item_count) None]>
             (buffers g)) g)) d with
  | Some (_, d') => Some ((geom, (type, slot)), d')
  | None => None
  end.

(** [p[index] = value] through a buffer pointer. *)
Definition poke (p : buffer_ptr) (index : nat) (value : scalar) : E unit :=
  update_geometry p.1 (fun g =>
    match buffers g !! p.2 with
    | Some b =>
      if decide (index < length b)
      then Some (set_buffers (<[p.2 := <[index := Some value]> b]> (buffers g)) g)
      else None
    | None => None
    end).

Definition rtcNewScene : E handle := fun d =>
  let h := next_handle d in
  Some (h, set_next_handle (S h)
             (set_scenes (<[h := {| attached := []; committed := false |}]>) d)).

(** Releasing a scene destroys it and drops its reference to every attached
    geometry. *)
Definition rtcReleaseScene (scene : handle) : E unit := fun d =>
  match scenes d !! scene with
  | Some sc =>
    Some (tt, set_scenes (delete scene)
                (set_geometries (fun m => foldr drop_reference m (attached sc)) d))
  | None => None
  end.

Definition rtcCommitScene (scene : handle) : E unit := fun d =>
  match scenes d !! scene with
  | Some sc =>
    Some (tt, set_scenes (<[scene := {| attached := attached sc;
                                        committed := true |}]>) d)
  | None => None
  end.

(** ** The scene manager

    [device_] is the engine device together with every object created from
    it; [scene_] and [listener_scene_] are scene handles. *)

Record SceneManager : Type := {
  device_ : RTCDeviceState;
  scene_ : handle;
  listener_scene_ : handle;
  is_scene_committed_ : bool;
  is_listener_scene_committed_ : bool;
  reflections_ : list ReflectionKernel;
  triangle_to_reflection_map_ : gmap nat nat;
  sphere_to_listener_map_ : gmap nat nat;
  num_vertices_ : nat;
  num_triangles_ : nat
}.

(** Member functions run in a state monad over the manager; a run has no
    result when an engine call has none or a vector is read out of range. *)
Definition M (A : Type) : Type := SceneManager -> option (A * SceneManager).

Definition ret {A} (a : A) : M A := fun s => Some (a, s).

Definition bind {A B} (c : M A) (k : A -> M B) : M B := fun s =>
  match c s with
  | Some (a, s') => k a s'
  | None => None
  end.

Notation "x <- c ;; k" := (bind c (fun x => k))
  (at level 20, c at level 99, k at level 200, only parsing).
Notation "c ;;; k" := (bind c (fun _ => k))
  (at level 100, k at level 200, right associativity, only parsing).

Definition read {A} (field : SceneManager -> A) : M A := fun s => Some (field s, s).

Definition with_device (d : RTCDeviceState) (s : SceneManager) : SceneManager :=
  {| device_ := d; scene_ := scene_ s;
     listener_scene_ := listener_scene_ s;
     is_scene_committed_ := is_scene_committed_ s;
     is_listener_scene_committed_ := is_listener_scene_committed_ s;
     reflections_ := reflections_ s;
     triangle_to_reflection_map_ := triangle_to_reflection_map_ s;
     sphere_to_listener_map_ := sphere_to_listener_map_ s;
     num_vertices_ := num_vertices_ s;
     num_triangles_ := num_triangles_ s |}.

(** An engine call on the manager's device. *)
Definition engine {A} (call : E A) : M A := fun s =>
  match call (device_ s) with
  | Some (a, d) => Some (a, with_device d s)
  | None => None
  end.

Definition assign_listener_scene_ (h : handle) : M unit := fun s =>
  Some (tt, {| device_ := device_ s; scene_ := scene_ s;
               listener_scene_ := h;
               is_scene_committed_ := is_scene_committed_ s;
               is_listener_scene_committed_ := is_listener_scene_committed_ s;
               reflections_ := reflections_ s;
               triangle_to_reflection_map_ := triangle_to_reflection_map_ s;
               sphere_to_listener_map_ := sphere_to_listener_map_ s;
               num_vertices_ := num_vertices_ s;
               num_triangles_ := num_triangles_ s |}).

Definition assign_is_scene_committed_ (b : bool) : M unit := fun s =>
  Some (tt, {| device_ := device_ s; scene_ := scene_ s;
               listener_scene_ := listener_scene_ s;
               is_scene_committed_ := b;
               is_listener_scene_committed_ := is_listener_scene_committed_ s;
               reflections_ := reflections_ s;
               triangle_to_reflection_map_ := triangle_to_reflection_map_ s;
               sphere_to_listener_map_ := sphere_to_listener_map_ s;
               num_vertices_ := num_vertices_ s;
               num_triangles_ := num_triangles_ s |}).

Definition assign_is_listener_scene_committed_ (b : bool) : M unit := fun s =>
  Some (tt, {| device_ := device_ s; scene_ := scene_ s;
               listener_scene_ := listener_scene_ s;
               is_scene_committed_ := is_scene_committed_ s;
               is_listener_scene_committed_ := b;
               reflections_ := reflections_ s;
               triangle_to_reflection_map_ := triangle_to_reflection_map_ s;
               sphere_to_listener_map_ := sphere_to_listener_map_ s;
               num_vertices_ := num_vertices_ s;
               num_triangles_ := num_triangles_ s |}).

Definition assign_reflections_ (l : list ReflectionKernel) : M unit := fun s =>
  Some (tt, {| device_ := device_ s; scene_ := scene_ s;
               listener_scene_ := listener_scene_ s;
               is_scene_committed_ := is_scene_committed_ s;
               is_listener_scene_committed_ := is_listener_scene_committed_ s;
               reflections_ := l;
               triangle_to_reflection_map_ := triangle_to_reflection_map_ s;
               sphere_to_listener_map_ := sphere_to_listener_map_ s;
               num_vertices_ := num_vertices_ s;
               num_triangles_ := num_triangles_ s |}).

Definition assign_triangle_to_reflection_map_ (m : gmap nat nat) : M unit := fun s =>
  Some (tt, {| device_ := device_ s; scene_ := scene_ s;
               listener_scene_ := listener_scene_ s;
               is_scene_committed_ := is_scene_committed_ s;
               is_listener_scene_committed_ := is_listener_scene_committed_ s;
               reflections_ := reflections_ s;
               triangle_to_reflection_map_ := m;
               sphere_to_listener_map_ := sphere_to_listener_map_ s;
               num_vertices_ := num_vertices_ s;
               num_triangles_ := num_triangles_ s |}).

Definition assign_sphere_to_listener_map_ (m : gmap nat nat) : M unit := fun s =>
  Some (tt, {| device_ := device_ s; scene_ := scene_ s;
               listener_scene_ := listener_scene_ s;
               is_scene_committed_ := is_scene_committed_ s;
               is_listener_scene_committed_ := is_listener_scene_committed_ s;
               reflections_ := reflections_ s;
               triangle_to_reflection_map_ := triangle_to_reflection_map_ s;
               sphere_to_listener_map_ := m;
               num_vertices_ := num_vertices_ s;
               num_triangles_ := num_triangles_ s |}).

Definition assign_num_vertices_ (n : nat) : M unit := fun s =>
  Some (tt, {| device_ := device_ s; scene_ := scene_ s;
               listener_scene_ := listener_scene_ s;
               is_scene_committed_ := is_scene_committed_ s;
               is_listener_scene_committed_ := is_listener_scene_committed_ s;
               reflections_ := reflections_ s;
               triangle_to_reflection_map_ := triangle_to_reflection_map_ s;
               sphere_to_listener_map_ := sphere_to_listener_map_ s;
               num_vertices_ := n;
               num_triangles_ := num_triangles_ s |}).

Definition assign_num_triangles_ (n : nat) : M unit := fun s =>
  Some (tt, {| device_ := device_ s; scene_ := scene_ s;
               listener_scene_ := listener_scene_ s;
               is_scene_committed_ := is_scene_committed_ s;
               is_listener_scene_committed_ := is_listener_scene_committed_ s;
               reflections_ := reflections_ s;
               triangle_to_reflection_map_ := triangle_to_reflection_map_ s;
               sphere_to_listener_map_ := sphere_to_listener_map_ s;
               num_vertices_ := num_vertices_ s;
               num_triangles_ := n |}).

(** [v[i]] and [v.at(i)] of a vector. *)
Definition at_index {A} (v : list A) (i : nat) : M A := fun s =>
  match v !! i with
  | Some a => Some (a, s)
  | None => None
  end.

(** [for (size_t i = start; i < start + count; ++i) body(i)]. *)
Fixpoint for_range (start count : nat) (body : nat -> M unit) : M unit :=
  match count with
  | 0 => ret tt
  | S count' => body start ;;; for_range (S start) count' body
  end.

(** Values of the members the constructor body does not assign: they come
    from the class declaration in [scene_manager.h]. *)
Record MemberInitializers : Set := {
  init_is_scene_committed : bool;
  init_is_listener_scene_committed : bool;
  init_num_vertices : nat;
  init_num_triangles : nat
}.

(** [rtcNewDevice]: a device that holds no object yet.  (Had the engine
    returned no device, [CHECK_NOTNULL] would have stopped the program.) *)
Definition rtcNewDevice : RTCDeviceState :=
  {| geometries := ∅; scenes := ∅; next_handle := 0 |}.

(** [SceneManager::SceneManager] *)
Definition SceneManager_new (init : MemberInitializers) : option SceneManager :=
  let device := rtcNewDevice in
  match rtcNewScene device with
  | Some (scene, device) =>
    match rtcNewScene device with
    | Some (listener_scene, device) =>
      Some {| device_ := device; scene_ := scene;
              listener_scene_ := listener_scene;
              is_scene_committed_ := init_is_scene_committed init;
              is_listener_scene_committed_ := init_is_listener_scene_committed init;
              reflections_ := [];
              triangle_to_reflection_map_ := ∅;
              sphere_to_listener_map_ := ∅;
              num_vertices_ := init_num_vertices init;
              num_triangles_ := init_num_triangles init |}
    | None => None
    end
  | None => None
  end.

(** Cell offsets of the fields of [EmbreeVertex { float x, y, z, a; }]. *)
Definition EmbreeVertex_x : nat := 0.
Definition EmbreeVertex_y : nat := 1.
Definition EmbreeVertex_z : nat := 2.
Definition EmbreeVertex_a : nat := 3.

(** [SceneManager::BuildScene] *)
Definition BuildScene (vertex_buffer : list Vertex)
    (triangle_buffer : list Triangle) : M unit :=
  assign_num_vertices_ (length vertex_buffer) ;;;
  assign_num_triangles_ (length triangle_buffer) ;;;
  geom_0 <- engine (rtcNewGeometry RTC_GEOMETRY_TYPE_TRIANGLE) ;;
  engine (rtcSetGeometryBuildQuality geom_0 RTC_BUILD_QUALITY_MEDIUM) ;;;
  engine (rtcSetGeometryTimeStepCount geom_0 1) ;;;
  scene <- read scene_ ;;
  mesh_id <- engine (rtcAttachGeometry scene geom_0) ;;
  engine (rtcReleaseGeometry geom_0) ;;;
  num_vertices <- read num_vertices_ ;;
  embree_vertex_array <-
    engine (rtcSetNewGeometryBuffer geom_0 RTC_BUFFER_TYPE_VERTEX 0
              RTC_FORMAT_FLOAT3 (4 * sizeof_float) num_vertices) ;;
  for_range 0 num_vertices (fun i =>
    v <- at_index vertex_buffer i ;;
    engine (poke embree_vertex_array (4 * i + EmbreeVertex_x) (F32 (vertex_x v))) ;;;
    engine (poke embree_vertex_array (4 * i + EmbreeVertex_y) (F32 (vertex_y v))) ;;;
    engine (poke embree_vertex_array (4 * i + EmbreeVertex_z) (F32 (vertex_z v)))) ;;;
  num_triangles <- read num_triangles_ ;;
  embree_index_array <-
    engine (rtcSetNewGeometryBuffer geom_0 RTC_BUFFER_TYPE_INDEX 0
              RTC_FORMAT_UINT3 (3 * sizeof_int) num_triangles) ;;
  for_range 0 num_triangles (fun i =>
    t <- at_index triangle_buffer i ;;
    engine (poke embree_index_array (3 * i + 0) (I32 (v0 t))) ;;;
    engine (poke embree_index_array (3 * i + 1) (I32 (v2 t))) ;;;
    engine (poke embree_index_array (3 * i + 2) (I32 (v1 t)))) ;;;
  scene <- read scene_ ;;
  engine (rtcCommitScene scene) ;;;
  assign_is_scene_committed_ true.

(** The range-for loop of [AssociateReflectionKernelToTriangles] over the
    sequence the set's iterator yields. *)
Fixpoint associate_loop (reflection_index : nat)
    (triangle_indices : list nat) : M bool :=
  match triangle_indices with
  | [] => ret true
  | triangle_index :: rest =>
    num_triangles <- read num_triangles_ ;;
    (* triangle_index >= num_triangles_ *)
    if decide (num_triangles <= triangle_index) then ret false
    else
      map <- read triangle_to_reflection_map_ ;;
      assign_triangle_to_reflection_map_
        (<[triangle_index := reflection_index]> map) ;;;
      associate_loop reflection_index rest
  end.

(** [SceneManager::AssociateReflectionKernelToTriangles].  The
    [std::unordered_set] argument is given by the sequence in which its
    iterator yields its elements (each once, in an unspecified order). *)
Definition AssociateReflectionKernelToTriangles (reflection : ReflectionKernel)
    (triangle_indices : list nat) : M bool :=
  reflections <- read reflections_ ;;
  let reflection_index := length reflections in
  assign_reflections_ (reflections ++ [reflection]) ;;;
  associate_loop reflection_index triangle_indices.

(** [SceneManager::BuildListenerScene] *)
Definition BuildListenerScene (listeners : list AcousticListener)
    (listener_sphere_radius : float) : M unit :=
  old_scene <- read listener_scene_ ;;
  engine (rtcReleaseScene old_scene) ;;;
  new_scene <- engine rtcNewScene ;;
  assign_listener_scene_ new_scene ;;;
  for_range 0 (length listeners) (fun listener_index =>
    listener <- at_index listeners listener_index ;;
    geom_1 <- engine (rtcNewGeometry RTC_GEOMETRY_TYPE_USER) ;;
    engine (rtcSetGeometryBuildQuality geom_1 RTC_BUILD_QUALITY_MEDIUM) ;;;
    engine (rtcSetGeometryUserPrimitiveCount geom_1 1) ;;;
    engine (rtcSetGeometryTimeStepCount geom_1 1) ;;;
    listener_scene <- read listener_scene_ ;;
    sphere_id <- engine (rtcAttachGeometry listener_scene geom_1) ;;
    engine (rtcReleaseGeometry geom_1) ;;;
    let sphere :=
      {| center := (position listener 0, position listener 1, position listener 2);
         radius := listener_sphere_radius;
         geometry_id := sphere_id |} in
    engine (rtcSetGeometryUserData geom_1 [sphere]) ;;;
    engine (rtcSetGeometryBoundsFunction geom_1 EmbreeSphereBoundsFunction) ;;;
    engine (rtcSetGeometryIntersectFunction geom_1 EmbreeSphereIntersectFunction) ;;;
    map <- read sphere_to_listener_map_ ;;
    assign_sphere_to_listener_map_ (<[sphere_id := listener_index]> map)) ;;;
  listener_scene <- read listener_scene_ ;;
  engine (rtcCommitScene listener_scene) ;;;
  assign_is_listener_scene_committed_ true.

(** ** Lookups *)

(** Modelled from the spec: the accessor [ReflectionKernelForTriangle] is
    declared in [scene_manager.h], which is not among the sources.  Its
    result is optional: the registry entry that the triangle's map entry
    points to, if the triangle has one. *)
Definition ReflectionKernelForTriangle (s : SceneManager)
    (triangle_index : nat) : option ReflectionKernel :=
  match triangle_to_reflection_map_ s !! triangle_index with
  | Some reflection_index => reflections_ s !! reflection_index
  | None => None
  end.

(** Modelled from the spec: the accessor [ListenerIndexForGeometry] is
    declared in [scene_manager.h], which is not among the sources.  Its
    result is optional: the listener index recorded for the geometry
    identifier, if there is one. *)
Definition ListenerIndexForGeometry (s : SceneManager)
    (geometry_id : nat) : option nat :=
  sphere_to_listener_map_ s !! geometry_id.

(** ** Notions used to state the properties *)

(** The manager after buffer [key] of geometry [h] was given contents [b]. *)
Definition put_buffer (h : handle) (key : RTCBufferType * nat)
    (g : RTCGeometryObject) (b : buffer) (s : SceneManager) : SceneManager :=
  with_device
    (set_geometries (<[h := set_buffers (<[key := b]> (buffers g)) g]>) (device_ s)) s.

(** The geometry [BuildListenerScene] has registered for a listener once
    the loop body is through, [sphere_id] being the identifier the engine
    gave it. *)
Definition listener_geometry (listener : AcousticListener)
    (listener_sphere_radius : float) (sphere_id : nat) : RTCGeometryObject :=
  {| ref_count := 1;
     geometry_type := RTC_GEOMETRY_TYPE_USER;
     build_quality := RTC_BUILD_QUALITY_MEDIUM;
     time_step_count := 1;
     user_primitive_count := 1;
     buffers := ∅;
     user_data :=
       [ {| center := (position listener 0, position listener 1,
                       position listener 2);
            radius := listener_sphere_radius;
            geometry_id := sphere_id |} ];
     bounds_function := Some EmbreeSphereBoundsFunction;
     intersect_function := Some EmbreeSphereIntersectFunction |}.

(** One iteration of the loop of [BuildListenerScene] over the listeners. *)
Definition listener_body (listeners : list AcousticListener)
    (listener_sphere_radius : float) (listener_index : nat) : M unit :=
  listener <- at_index listeners listener_index ;;
  geom_1 <- engine (rtcNewGeometry RTC_GEOMETRY_TYPE_USER) ;;
  engine (rtcSetGeometryBuildQuality geom_1 RTC_BUILD_QUALITY_MEDIUM) ;;;
  engine (rtcSetGeometryUserPrimitiveCount geom_1 1) ;;;
  engine (rtcSetGeometryTimeStepCount geom_1 1) ;;;
  listener_scene <- read listener_scene_ ;;
  sphere_id <- engine (rtcAttachGeometry listener_scene geom_1) ;;
  engine (rtcReleaseGeometry geom_1) ;;;
  let sphere :=
    {| center := (position listener 0, position listener 1, position listener 2);
       radius := listener_sphere_radius;
       geometry_id := sphere_id |} in
  engine (rtcSetGeometryUserData geom_1 [sphere]) ;;;
  engine (rtcSetGeometryBoundsFunction geom_1 EmbreeSphereBoundsFunction) ;;;
  engine (rtcSetGeometryIntersectFunction geom_1 EmbreeSphereIntersectFunction) ;;;
  map <- read sphere_to_listener_map_ ;;
  assign_sphere_to_listener_map_ (<[sphere_id := listener_index]> map).

(** The members that the loop over the listeners leaves alone. *)
Definition listener_loop_frame (s s' : SceneManager) : Prop :=
  scene_ s' = scene_ s
  ∧ listener_scene_ s' = listener_scene_ s
  ∧ is_scene_committed_ s' = is_scene_committed_ s
  ∧ is_listener_scene_committed_ s' = is_listener_scene_committed_ s
  ∧ reflections_ s' = reflections_ s
  ∧ triangle_to_reflection_map_ s' = triangle_to_reflection_map_ s
  ∧ num_vertices_ s' = num_vertices_ s
  ∧ num_triangles_ s' = num_triangles_ s.

(** The indices the loop of [AssociateReflectionKernelToTriangles] gets to
    write: those it meets before the first one that is out of range. *)
Fixpoint in_range_prefix (num_triangles : nat) (triangle_indices : list nat)
    : list nat :=
  match triangle_indices with
  | [] => []
  | triangle_index :: rest =>
    if decide (num_triangles <= triangle_index) then []
    else triangle_index :: in_range_prefix num_triangles rest
  end.

(** Everything but the registry and the triangle map. *)
Definition registry_frame (s s' : SceneManager) : Prop :=
  device_ s' = device_ s
  ∧ scene_ s' = scene_ s
  ∧ listener_scene_ s' = listener_scene_ s
  ∧ is_scene_committed_ s' = is_scene_committed_ s
  ∧ is_listener_scene_committed_ s' = is_listener_scene_committed_ s
  ∧ sphere_to_listener_map_ s' = sphere_to_listener_map_ s
  ∧ num_vertices_ s' = num_vertices_ s
  ∧ num_triangles_ s' = num_triangles_ s.

(** The scene handles of the manager denote two distinct live scenes. *)
Definition live (s : SceneManager) : Prop :=
  is_Some (scenes (device_ s) !! scene_ s)
  ∧ is_Some (scenes (device_ s) !! listener_scene_ s)
  ∧ scene_ s ≠ listener_scene_ s
  ∧ scene_ s < next_handle (device_ s).

(** States reached from a fresh manager by calls that return; [guard]
    restricts the triangle buffers handed to [BuildScene]. *)
Inductive reachable_if (guard : SceneManager -> list Triangle -> Prop)
    (init : MemberInitializers) : SceneManager -> Prop :=
  | reachable_new s :
      SceneManager_new init = Some s -> reachable_if guard init s
  | reachable_BuildScene s V T s' :
      reachable_if guard init s -> guard s T ->
      BuildScene V T s = Some (tt, s') -> reachable_if guard init s'
  | reachable_Associate s K l ok s' :
      reachable_if guard init s ->
      AssociateReflectionKernelToTriangles K l s = Some (ok, s') ->
      reachable_if guard init s'
  | reachable_BuildListenerScene s L r s' :
      reachable_if guard init s ->
      BuildListenerScene L r s = Some (tt, s') ->
      reachable_if guard init s'.

Definition reachable : MemberInitializers -> SceneManager -> Prop :=
  reachable_if (λ _ _, True).

(** Every key of the triangle map is below the recorded triangle count. *)
Definition keys_in_range (s : SceneManager) : Prop :=
  ∀ i j, triangle_to_reflection_map_ s !! i = Some j -> i < num_triangles_ s.

(** The triangle buffer is longer than every key of the triangle map. *)
Definition covers_keys (s : SceneManager) (T : list Triangle) : Prop :=
  ∀ i j, triangle_to_reflection_map_ s !! i = Some j -> i < length T.

(** ** The destructor, and what the manager keeps true of its store *)

(** [rtcReleaseDevice]: the manager gives up its reference to the device;
    what is still in the store then was never released. *)
Definition rtcReleaseDevice : E unit := fun d => Some (tt, d).

(** [SceneManager::~SceneManager] *)
Definition SceneManager_delete : M unit :=
  scene <- read scene_ ;;
  engine (rtcReleaseScene scene) ;;;
  listener_scene <- read listener_scene_ ;;
  engine (rtcReleaseScene listener_scene) ;;;
  engine rtcReleaseDevice.

(** The store holds the two scenes of the manager and nothing else, and
    the live geometries are those attached to them, each attached once and
    referenced by its scene only; every handle in use is below the next
    one to be handed out. *)
Definition store_consistent (s : SceneManager) : Prop :=
  ∃ sc lsc,
    scenes (device_ s) = <[scene_ s := sc]> {[listener_scene_ s := lsc]}
    ∧ scene_ s ≠ listener_scene_ s
    ∧ NoDup (attached sc ++ attached lsc)
    ∧ (∀ h, is_Some (geometries (device_ s) !! h)
            ↔ h ∈ attached sc ++ attached lsc)
    ∧ (∀ h g, geometries (device_ s) !! h = Some g -> ref_count g = 1)
    ∧ (∀ h, h ∈ attached sc ++ attached lsc -> h < next_handle (device_ s))
    ∧ scene_ s < next_handle (device_ s)
    ∧ listener_scene_ s < next_handle (device_ s).

(** Every entry of the triangle map points at an entry of the registry. *)
Definition entries_resolve (s : SceneManager) : Prop :=
  ∀ i j, triangle_to_reflection_map_ s !! i = Some j ->
         j < length (reflections_ s).

End geometrical_acoustics.

Notation "x <- c ;; k" := (bind c (fun x => k))
  (at level 20, c at level 99, k at level 200, only parsing).
Notation "c ;;; k" := (bind c (fun _ => k))
  (at level 100, k at level 200, right associativity, only parsing).

(** ** A worked instance

    Floats are only copied, so integers stand in for them; a reflection
    kernel is a material; the ray/hit record is the list of the geometry
    identifiers hit so far, most recent first. *)

Inductive material : Set := brick | curtain.

Definition example_SphereBounds (sphere : @Sphere Z) (bounds : unit) : unit :=
  bounds.

Definition example_SphereIntersection (sphere : @Sphere Z) (ray : list nat)
    : list nat :=
  geometry_id sphere :: ray.

Definition example_init : MemberInitializers :=
  {| init_is_scene_committed := false;
     init_is_listener_scene_committed := false;
     init_num_vertices := 0;
     init_num_triangles := 0 |}.

(** The result of a run that has one. *)
Definition from_some {A : Type} (o : option A)
    : match o with Some _ => A | None => unit end :=
  match o with Some a => a | None => tt end.

(** The state a run of a member function ends in. *)
Definition state_after {A S : Type} (run : option (A * S)) : option S :=
  match run with Some (_, s) => Some s | None => None end.

Definition example_manager : @SceneManager Z material (list nat) unit :=
  from_some (SceneManager_new example_init).

(** One triangle over three vertices. *)
Definition example_vertices : list (@Vertex Z) :=
  [ {| vertex_x := 0; vertex_y := 0; vertex_z := 0 |};
    {| vertex_x := 1; vertex_y := 0; vertex_z := 0 |};
    {| vertex_x := 0; vertex_y := 1; vertex_z := 0 |} ]%Z.

Definition example_triangle : Triangle := {| v0 := 0; v1 := 1; v2 := 2 |}.

(** The manager after [BuildScene] with one triangle, with two, and with
    one again after an association in between. *)
Definition example_one_triangle : @SceneManager Z material (list nat) unit :=
  from_some (state_after
    (BuildScene example_vertices [example_triangle] example_manager)).

Definition example_two_triangles : @SceneManager Z material (list nat) unit :=
  from_some (state_after
    (BuildScene example_vertices [example_triangle; example_triangle]
       example_manager)).

Definition example_associated : @SceneManager Z material (list nat) unit :=
  from_some (state_after
    (AssociateReflectionKernelToTriangles brick [1] example_two_triangles)).

Definition example_shrunk : @SceneManager Z material (list nat) unit :=
  from_some (state_after
    (BuildScene example_vertices [example_triangle] example_associated)).

(** A failed association on the scene of one triangle, and two successful
    ones on the scene of two. *)
Definition example_failed : @SceneManager Z material (list nat) unit :=
  from_some (state_after
    (AssociateReflectionKernelToTriangles brick [0; 1] example_one_triangle)).

Definition example_first : @SceneManager Z material (list nat) unit :=
  from_some (state_after
    (AssociateReflectionKernelToTriangles brick [0; 1] example_two_triangles)).

Definition example_second : @SceneManager Z material (list nat) unit :=
  from_some (state_after
    (AssociateReflectionKernelToTriangles curtain [1] example_first)).

(** Two listeners, then a rebuild with the first one only. *)
Definition example_listener_1 : @AcousticListener Z :=
  {| position := λ axis, match axis with 0 => 5%Z | _ => 0%Z end |}.

Definition example_listener_2 : @AcousticListener Z :=
  {| position := λ axis, match axis with 1 => 7%Z | _ => 0%Z end |}.

Definition example_two_listeners : @SceneManager Z material (list nat) unit :=
  from_some (state_after
    (BuildListenerScene example_SphereBounds example_SphereIntersection
       [example_listener_1; example_listener_2] 1%Z example_manager)).

Definition example_rebuilt : @SceneManager Z material (list nat) unit :=
  from_some (state_after
    (BuildListenerScene example_SphereBounds example_SphereIntersection
       [example_listener_1] 1%Z example_two_listeners)).

(** A single valid ray on the sphere of the first listener, and the same
    call with the slot marked invalid. *)
Definition example_sphere : @Sphere Z :=
  {| center := (5, 0, 0)%Z; radius := 1%Z; geometry_id := 0 |}.

Definition example_valid_args : @RTCIntersectFunctionNArguments Z (list nat) :=
  {| valid := [(-1)%Z]; geometryUserPtr := [example_sphere]; primID := 0;
     rayhit := []; args_N := 1 |}.


(** A mesh of one triangle with its kernel, then two listeners. *)
Definition example_covered : @SceneManager Z material (list nat) unit :=
  from_some (state_after
    (AssociateReflectionKernelToTriangles brick [0] example_one_triangle)).

Definition example_session : @SceneManager Z material (list nat) unit :=
  from_some (state_after
    (BuildListenerScene example_SphereBounds example_SphereIntersection
       [example_listener_1; example_listener_2] 1%Z example_covered)).


(** ** Properties *)

Section properties.
Context {float ReflectionKernel RTCRayHit RTCBounds : Type}.
Context (SphereBounds : @Sphere float -> RTCBounds -> RTCBounds).
Context (SphereIntersection : @Sphere float -> RTCRayHit -> RTCRayHit).
Local Abbreviation SceneManager :=
  (@SceneManager float ReflectionKernel RTCRayHit RTCBounds).
Local Abbreviation RTCDeviceState :=
  (@RTCDeviceState float RTCRayHit RTCBounds).
Local Abbreviation RTCGeometryObject :=
  (@RTCGeometryObject float RTCRayHit RTCBounds).
Local Abbreviation M := (@M float ReflectionKernel RTCRayHit RTCBounds).
Local Abbreviation E := (@E float RTCRayHit RTCBounds).
Local Abbreviation Vertex := (@Vertex float).
Local Abbreviation AcousticListener := (@AcousticListener float).
Local Abbreviation Sphere := (@Sphere float).
Local Abbreviation buffer := (list (option (@scalar float))).
Local Abbreviation scalar := (@scalar float).

Implicit Types (s : SceneManager) (d : RTCDeviceState) (g : RTCGeometryObject).
Implicit Types (h : handle) (b : buffer).

Lemma bind_Some {A B} (c : M A) (k : A -> M B) s a s1 :
  c s = Some (a, s1) -> bind c k s = k a s1.
Proof. intros H. unfold bind. by rewrite H. Qed.

Lemma engine_Some {A} (call : E A) s a d :
  call (device_ s) = Some (a, d) -> engine call s = Some (a, with_device d s).
Proof. intros H. unfold engine. by rewrite H. Qed.

Lemma update_geometry_Some h f d g g' :
  geometries d !! h = Some g -> f g = Some g' ->
  update_geometry h f d = Some (tt, set_geometries (<[h := g']>) d).
Proof. intros H1 H2. unfold update_geometry. by rewrite H1, H2. Qed.

Lemma poke_put_buffer h key g b s index value :
  index < length b ->
  engine (poke (h, key) index value) (put_buffer h key g b s)
  = Some (tt, put_buffer h key g (<[index := Some value]> b) s).
Proof.
  intros Hlt. unfold engine, poke, update_geometry, put_buffer. cbn.
  rewrite !lookup_insert_eq. cbn. rewrite lookup_insert_eq.
  rewrite decide_True by done. cbn.
  unfold with_device, set_geometries, set_buffers. cbn.
  by rewrite !insert_insert_eq.
Qed.


Lemma at_index_Some {A} (v : list A) i a s :
  v !! i = Some a -> at_index v i s = Some (a, s).
Proof. intros H. unfold at_index. by rewrite H. Qed.

Lemma index_loop (T : list Triangle) h key g s count : ∀ start b,
  start + count ≤ length T ->
  3 * (start + count) ≤ length b ->
  ∃ b',
    for_range start count (λ i,
      t <- at_index T i ;;
      engine (poke (h, key) (3 * i + 0) (I32 (v0 t))) ;;;
      engine (poke (h, key) (3 * i + 1) (I32 (v2 t))) ;;;
      engine (poke (h, key) (3 * i + 2) (I32 (v1 t))))
      (put_buffer h key g b s)
    = Some (tt, put_buffer h key g b' s)
    ∧ length b' = length b
    ∧ (∀ p, p < 3 * start -> b' !! p = b !! p)
    ∧ (∀ i t, start ≤ i < start + count -> T !! i = Some t ->
         b' !! (3 * i) = Some (Some (I32 (v0 t)))
         ∧ b' !! (3 * i + 1) = Some (Some (I32 (v2 t)))
         ∧ b' !! (3 * i + 2) = Some (Some (I32 (v1 t)))).
Proof.
  induction count as [|count IH]; intros start b HT Hb.
  - exists b. split_and!; [done|done|done|]. intros i t Hi. lia.
  - destruct (lookup_lt_is_Some_2 T start) as [t Ht]; [lia|].
    cbn [for_range].
    rewrite (bind_Some _ _ _ tt
      (put_buffer h key g
         (<[3 * start + 2 := Some (I32 (v1 t))]>
            (<[3 * start + 1 := Some (I32 (v2 t))]>
               (<[3 * start + 0 := Some (I32 (v0 t))]> b))) s)).
    2:{ erewrite bind_Some by (by apply at_index_Some).
        erewrite bind_Some by (apply poke_put_buffer; lia).
        erewrite bind_Some by (apply poke_put_buffer; rewrite length_insert; lia).
        apply poke_put_buffer. rewrite !length_insert. lia. }
    destruct (IH (S start) (<[3 * start + 2 := Some (I32 (v1 t))]>
            (<[3 * start + 1 := Some (I32 (v2 t))]>
               (<[3 * start + 0 := Some (I32 (v0 t))]> b))))
      as (b' & Hrun & Hlen & Hframe & Hcells).
    { lia. } { rewrite !length_insert. lia. }
    exists b'. split_and!.
    + done.
    + by rewrite Hlen, !length_insert.
    + intros p Hp. rewrite Hframe by lia.
      rewrite !list_lookup_insert_ne by lia. done.
    + intros i t' Hi Hi'. destruct (decide (i = start)) as [->|Hne].
      * assert (t' = t) as -> by congruence.
        rewrite !Hframe by lia. split_and!.
        -- rewrite !list_lookup_insert_ne by lia.
           rewrite <-(Nat.add_0_r (3 * start)) at 1.
           apply list_lookup_insert_eq. lia.
        -- rewrite list_lookup_insert_ne by lia.
           apply list_lookup_insert_eq. rewrite length_insert. lia.
        -- apply list_lookup_insert_eq. rewrite !length_insert. lia.
      * apply Hcells; [lia|done].
Qed.

Lemma vertex_loop (V : list Vertex) h key g s count : ∀ start b,
  start + count ≤ length V ->
  4 * (start + count) ≤ length b ->
  ∃ b',
    for_range start count (λ i,
      v <- at_index V i ;;
      engine (poke (h, key) (4 * i + EmbreeVertex_x) (F32 (vertex_x v))) ;;;
      engine (poke (h, key) (4 * i + EmbreeVertex_y) (F32 (vertex_y v))) ;;;
      engine (poke (h, key) (4 * i + EmbreeVertex_z) (F32 (vertex_z v))))
      (put_buffer h key g b s)
    = Some (tt, put_buffer h key g b' s)
    ∧ length b' = length b.
Proof.
  unfold EmbreeVertex_x, EmbreeVertex_y, EmbreeVertex_z.
  induction count as [|count IH]; intros start b HV Hb.
  - by exists b.
  - destruct (lookup_lt_is_Some_2 V start) as [v Hv]; [lia|].
    cbn [for_range].
    erewrite bind_Some; cycle 1.
    { erewrite bind_Some by (by apply at_index_Some).
      erewrite bind_Some by (apply poke_put_buffer; lia).
      erewrite bind_Some by (apply poke_put_buffer; rewrite length_insert; lia).
      apply poke_put_buffer. rewrite !length_insert. lia. }
    edestruct (IH (S start)) as (b' & Hrun & Hlen); [lia| |].
    2:{ exists b'. split; [exact Hrun|]. by rewrite Hlen, !length_insert. }
    rewrite !length_insert. lia.
Qed.

Lemma rtcSetNewGeometryBuffer_put_buffer h type slot format stride n g s :
  geometries (device_ s) !! h = Some g ->
  engine (rtcSetNewGeometryBuffer h type slot format stride n) s
  = Some ((h, (type, slot)),
          put_buffer h (type, slot) g (replicate (stride `div` 4 * n) None) s).
Proof.
  intros Hg. unfold engine, rtcSetNewGeometryBuffer, update_geometry.
  by rewrite Hg.
Qed.

Ltac simpl_state :=
  cbv [with_device set_geometries set_scenes set_next_handle
       new_geometry set_ref_count];
  cbn [device_ scene_ listener_scene_ is_scene_committed_
       is_listener_scene_committed_ reflections_ triangle_to_reflection_map_
       sphere_to_listener_map_ num_vertices_ num_triangles_
       geometries scenes next_handle
       ref_count geometry_type build_quality time_step_count
       user_primitive_count buffers user_data bounds_function
       intersect_function attached committed fst snd];
  rewrite ?insert_insert_eq.

Tactic Notation "step_by" tactic3(tac) :=
  erewrite bind_Some by tac; simpl_state.

Lemma engine_update_geometry h f g g' s :
  geometries (device_ s) !! h = Some g -> f g = Some g' ->
  engine (update_geometry h f) s
  = Some (tt, with_device (set_geometries (<[h := g']>) (device_ s)) s).
Proof.
  intros H1 H2. apply engine_Some. by eapply update_geometry_Some.
Qed.

Lemma engine_rtcAttachGeometry scene h sc g s :
  scenes (device_ s) !! scene = Some sc ->
  geometries (device_ s) !! h = Some g ->
  engine (rtcAttachGeometry scene h) s
  = Some (length (attached sc),
          with_device
            (set_scenes (<[scene := {| attached := attached sc ++ [h];
                                       committed := committed sc |}]>)
               (set_geometries (<[h := set_ref_count (S (ref_count g)) g]>)
                  (device_ s))) s).
Proof.
  intros H1 H2. apply engine_Some. unfold rtcAttachGeometry. by rewrite H1, H2.
Qed.

Lemma engine_rtcReleaseGeometry h g s :
  geometries (device_ s) !! h = Some g ->
  engine (rtcReleaseGeometry h) s
  = Some (tt, with_device (set_geometries (drop_reference h) (device_ s)) s).
Proof.
  intros H. apply engine_Some. unfold rtcReleaseGeometry. by rewrite H.
Qed.

Lemma drop_reference_shared h g n (m : gmap handle RTCGeometryObject) :
  ref_count g = S (S n) ->
  drop_reference h (<[h := g]> m) = <[h := set_ref_count (S n) g]> m.
Proof.
  intros H. unfold drop_reference. rewrite lookup_insert_eq, H.
  by rewrite insert_insert_eq.
Qed.

Lemma engine_rtcCommitScene scene sc s :
  scenes (device_ s) !! scene = Some sc ->
  engine (rtcCommitScene scene) s
  = Some (tt, with_device
                (set_scenes (<[scene := {| attached := attached sc;
                                           committed := true |}]>)
                   (device_ s)) s).
Proof.
  intros H. apply engine_Some. unfold rtcCommitScene. by rewrite H.
Qed.

Ltac open_buffer :=
  cbv [put_buffer set_buffers]; simpl_state.

(** What [BuildScene] leaves behind, given that the world scene is live. *)
Lemma BuildScene_run (V : list Vertex) (T : list Triangle) s sc :
  scenes (device_ s) !! scene_ s = Some sc ->
  ∃ s' g' bi,
    BuildScene V T s = Some (tt, s')
    ∧ geometries (device_ s')
      = <[next_handle (device_ s) := g']> (geometries (device_ s))
    ∧ scenes (device_ s')
      = <[scene_ s := {| attached := attached sc ++ [next_handle (device_ s)];
                         committed := true |}]> (scenes (device_ s))
    ∧ next_handle (device_ s') = S (next_handle (device_ s))
    ∧ geometry_type g' = RTC_GEOMETRY_TYPE_TRIANGLE
    ∧ ref_count g' = 1
    ∧ buffers g' !! (RTC_BUFFER_TYPE_INDEX, 0) = Some bi
    ∧ length bi = 3 * length T
    ∧ (∀ i t, T !! i = Some t ->
         bi !! (3 * i) = Some (Some (I32 (v0 t)))
         ∧ bi !! (3 * i + 1) = Some (Some (I32 (v2 t)))
         ∧ bi !! (3 * i + 2) = Some (Some (I32 (v1 t))))
    ∧ scene_ s' = scene_ s
    ∧ listener_scene_ s' = listener_scene_ s
    ∧ is_scene_committed_ s' = true
    ∧ is_listener_scene_committed_ s' = is_listener_scene_committed_ s
    ∧ reflections_ s' = reflections_ s
    ∧ triangle_to_reflection_map_ s' = triangle_to_reflection_map_ s
    ∧ sphere_to_listener_map_ s' = sphere_to_listener_map_ s
    ∧ num_vertices_ s' = length V
    ∧ num_triangles_ s' = length T.
Proof.
  intros Hsc. unfold BuildScene.
  step_by reflexivity.
  step_by reflexivity.
  step_by reflexivity.
  set (h := next_handle (device_ s)).
  step_by (eapply engine_update_geometry; [apply lookup_insert_eq | reflexivity]).
  step_by (eapply engine_update_geometry; [apply lookup_insert_eq | reflexivity]).
  step_by reflexivity.
  step_by (eapply engine_rtcAttachGeometry; [exact Hsc | apply lookup_insert_eq]).
  step_by (eapply engine_rtcReleaseGeometry; apply lookup_insert_eq).
  erewrite drop_reference_shared by reflexivity. simpl_state.
  step_by reflexivity.
  step_by (eapply rtcSetNewGeometryBuffer_put_buffer; apply lookup_insert_eq).
  change ((4 * sizeof_float) `div` 4) with 4.
  match goal with |- context [put_buffer h ?key ?g ?b ?s] =>
    destruct (vertex_loop V h key g s (length V) 0 b) as (bv & Hv & Hlv)
  end; [done | by rewrite length_replicate |].
  step_by (exact Hv). clear Hv.
  open_buffer.
  step_by reflexivity.
  step_by (eapply rtcSetNewGeometryBuffer_put_buffer; apply lookup_insert_eq).
  change ((3 * sizeof_int) `div` 4) with 3.
  match goal with |- context [put_buffer h ?key ?g ?b ?s] =>
    destruct (index_loop T h key g s (length T) 0 b)
      as (bi & Hi & Hli & _ & Hcells)
  end; [done | by rewrite length_replicate |].
  step_by (exact Hi). clear Hi.
  open_buffer.
  step_by reflexivity.
  step_by (eapply engine_rtcCommitScene; apply lookup_insert_eq).
  eexists _, _, bi. split; [reflexivity|]. simpl_state.
  split_and!; try reflexivity; try apply lookup_insert_eq.
  - by rewrite Hli, length_replicate.
  - intros i t Ht. apply Hcells; [|done].
    apply lookup_lt_Some in Ht. lia.
Qed.


(** ** The listener scene *)

Lemma listener_body_run listeners r i listener s sc :
  listeners !! i = Some listener ->
  scenes (device_ s) !! listener_scene_ s = Some sc ->
  listener_body SphereBounds SphereIntersection listeners r i s
  = Some (tt,
      {| device_ :=
           {| geometries :=
                <[next_handle (device_ s) :=
                    listener_geometry SphereBounds SphereIntersection listener r
                      (length (attached sc))]>
                  (geometries (device_ s));
              scenes :=
                <[listener_scene_ s :=
                    {| attached := attached sc ++ [next_handle (device_ s)];
                       committed := committed sc |}]> (scenes (device_ s));
              next_handle := S (next_handle (device_ s)) |};
         scene_ := scene_ s;
         listener_scene_ := listener_scene_ s;
         is_scene_committed_ := is_scene_committed_ s;
         is_listener_scene_committed_ := is_listener_scene_committed_ s;
         reflections_ := reflections_ s;
         triangle_to_reflection_map_ := triangle_to_reflection_map_ s;
         sphere_to_listener_map_ :=
           <[length (attached sc) := i]> (sphere_to_listener_map_ s);
         num_vertices_ := num_vertices_ s;
         num_triangles_ := num_triangles_ s |}).
Proof.
  intros Hl Hsc. unfold listener_body.
  step_by (by apply at_index_Some).
  step_by reflexivity.
  step_by (eapply engine_update_geometry; [apply lookup_insert_eq | reflexivity]).
  step_by (eapply engine_update_geometry; [apply lookup_insert_eq | reflexivity]).
  step_by (eapply engine_update_geometry; [apply lookup_insert_eq | reflexivity]).
  step_by reflexivity.
  step_by (eapply engine_rtcAttachGeometry; [exact Hsc | apply lookup_insert_eq]).
  step_by (eapply engine_rtcReleaseGeometry; apply lookup_insert_eq).
  erewrite drop_reference_shared by reflexivity. simpl_state.
  step_by (eapply engine_update_geometry; [apply lookup_insert_eq | reflexivity]).
  step_by (eapply engine_update_geometry; [apply lookup_insert_eq | reflexivity]).
  step_by (eapply engine_update_geometry; [apply lookup_insert_eq | reflexivity]).
  step_by reflexivity.
  reflexivity.
Qed.


Lemma listener_loop listeners r count : ∀ start s sc,
  start + count ≤ length listeners ->
  scenes (device_ s) !! listener_scene_ s = Some sc ->
  ∃ s',
    for_range start count (listener_body SphereBounds SphereIntersection listeners r) s = Some (tt, s')
    ∧ listener_loop_frame s s'
    ∧ next_handle (device_ s') = next_handle (device_ s) + count
    ∧ scenes (device_ s')
      = <[listener_scene_ s :=
            {| attached := attached sc ++ seq (next_handle (device_ s)) count;
               committed := committed sc |}]> (scenes (device_ s))
    ∧ (∀ h, h < next_handle (device_ s) ->
         geometries (device_ s') !! h = geometries (device_ s) !! h)
    ∧ (∀ j listener, j < count -> listeners !! (start + j) = Some listener ->
         geometries (device_ s') !! (next_handle (device_ s) + j)
         = Some (listener_geometry SphereBounds SphereIntersection listener r
                   (length (attached sc) + j)))
    ∧ (∀ id, sphere_to_listener_map_ s' !! id
         = if decide (length (attached sc) ≤ id < length (attached sc) + count)
           then Some (start + (id - length (attached sc)))
           else sphere_to_listener_map_ s !! id).
Proof.
  induction count as [|count IH]; intros start s sc Hlen Hsc.
  - exists s. split_and!; try done.
    + cbn [seq]. rewrite app_nil_r. destruct sc. by rewrite insert_id.
    + intros j listener Hj. lia.
    + intros id. rewrite decide_False by lia. done.
  - destruct (lookup_lt_is_Some_2 listeners start) as [listener Hl]; [lia|].
    cbn [for_range].
    step_by (by eapply listener_body_run).
    edestruct (IH (S start)) as
      (s' & Hrun & Hframe & Hnext & Hscenes & Hold & Hnew & Hmap);
      [ | | exists s'; split; [exact Hrun|] ].
    { lia. }
    { simpl_state. apply lookup_insert_eq. }
    clear Hrun IH. revert Hframe Hnext Hscenes Hold Hnew Hmap.
    unfold listener_loop_frame. simpl_state.
    intros Hframe Hnext Hscenes Hold Hnew Hmap.
    split_and!; try tauto.
    + lia.
    + rewrite Hscenes. f_equal. cbn [seq]. by rewrite <-app_assoc.
    + intros h Hh. rewrite Hold by lia. apply lookup_insert_ne. lia.
    + intros j listener' Hj Hl'. destruct j as [|j].
      * rewrite !Nat.add_0_r in *. rewrite Hold by lia.
        rewrite lookup_insert_eq. congruence.
      * replace (next_handle (device_ s) + S j)
          with (S (next_handle (device_ s)) + j) by lia.
        rewrite (Hnew j listener'); [|lia|].
        -- do 2 f_equal. rewrite length_app. cbn. lia.
        -- rewrite <-Hl'. f_equal. lia.
    + intros id. rewrite Hmap. rewrite length_app. cbn [length].
      repeat case_decide; try lia.
      * f_equal. lia.
      * assert (id = length (attached sc)) as -> by lia.
        rewrite lookup_insert_eq. f_equal. lia.
      * apply lookup_insert_ne. lia.
Qed.


Lemma engine_rtcReleaseScene scene sc s :
  scenes (device_ s) !! scene = Some sc ->
  engine (rtcReleaseScene scene) s
  = Some (tt, with_device
                (set_scenes (delete scene)
                   (set_geometries
                      (λ m, foldr drop_reference m (attached sc)) (device_ s))) s).
Proof.
  intros H. apply engine_Some. unfold rtcReleaseScene. by rewrite H.
Qed.

(** What [BuildListenerScene] leaves behind, given that the previous
    listener scene is live. *)
Lemma BuildListenerScene_run (listeners : list AcousticListener) (r : float) s sc :
  scenes (device_ s) !! listener_scene_ s = Some sc ->
  ∃ s',
    BuildListenerScene SphereBounds SphereIntersection listeners r s = Some (tt, s')
    ∧ listener_scene_ s' = next_handle (device_ s)
    ∧ scenes (device_ s')
      = <[next_handle (device_ s) :=
            {| attached := seq (S (next_handle (device_ s))) (length listeners);
               committed := true |}]>
          (delete (listener_scene_ s) (scenes (device_ s)))
    ∧ next_handle (device_ s') = S (next_handle (device_ s)) + length listeners
    ∧ (∀ k listener, listeners !! k = Some listener ->
         geometries (device_ s') !! (S (next_handle (device_ s)) + k)
         = Some (listener_geometry SphereBounds SphereIntersection
                   listener r k))
    ∧ (∀ id, sphere_to_listener_map_ s' !! id
         = if decide (id < length listeners) then Some id
           else sphere_to_listener_map_ s !! id)
    ∧ scene_ s' = scene_ s
    ∧ is_scene_committed_ s' = is_scene_committed_ s
    ∧ is_listener_scene_committed_ s' = true
    ∧ reflections_ s' = reflections_ s
    ∧ triangle_to_reflection_map_ s' = triangle_to_reflection_map_ s
    ∧ num_vertices_ s' = num_vertices_ s
    ∧ num_triangles_ s' = num_triangles_ s.
Proof.
  intros Hsc. unfold BuildListenerScene.
  step_by reflexivity.
  step_by (eapply engine_rtcReleaseScene; exact Hsc).
  step_by reflexivity.
  step_by reflexivity.
  set (nh := next_handle (device_ s)).
  match goal with |- context [bind (for_range 0 _ _) _ ?st] =>
    destruct (listener_loop listeners r (length listeners) 0 st
                {| attached := []; committed := false |})
      as (s1 & Hrun & Hframe & Hnext & Hscenes & _ & Hnew & Hmap)
  end.
  { done. }
  { simpl_state. apply lookup_insert_eq. }
  step_by (exact Hrun). clear Hrun.
  revert Hframe Hnext Hscenes Hnew Hmap.
  unfold listener_loop_frame. simpl_state. cbn [app length].
  intros (Hs & Hls & Hc & Hlc & Hr & Ht & Hnv & Hnt) Hnext Hscenes Hnew Hmap.
  step_by reflexivity.
  step_by (eapply engine_rtcCommitScene; rewrite Hls, Hscenes;
           apply lookup_insert_eq).
  eexists. split; [reflexivity|]. simpl_state.
  split_and!; try done.
  - rewrite Hls, Hscenes. by rewrite !insert_insert_eq.
  - intros k listener Hk. apply Hnew; [|done].
    by apply lookup_lt_Some in Hk.
  - intros id. rewrite Hmap. repeat case_decide; try lia; try done.
    f_equal. lia.
Qed.


(** ** The reflection-kernel registry *)

Lemma in_range_prefix_all n l :
  Forall (λ i, i < n) l -> in_range_prefix n l = l.
Proof.
  induction 1 as [|i l Hi _ IH]; [done|]. cbn.
  rewrite decide_False by lia. by rewrite IH.
Qed.

Lemma in_range_prefix_in_range n l : Forall (λ i, i < n) (in_range_prefix n l).
Proof.
  induction l as [|i l IH]; cbn; [done|].
  case_decide; [done|]. constructor; [lia|done].
Qed.

Lemma lookup_foldl_insert (idx : nat) (l : list nat) : ∀ (m : gmap nat nat) k,
  foldl (λ m i, <[i := idx]> m) m l !! k
  = if decide (k ∈ l) then Some idx else m !! k.
Proof.
  induction l as [|i l IH]; intros m k; cbn.
  - rewrite decide_False; [done|]. apply not_elem_of_nil.
  - rewrite IH. destruct (decide (k ∈ l)) as [Hin|Hnin].
    + rewrite decide_True; [done|]. by right.
    + destruct (decide (k = i)) as [->|Hne].
      * rewrite lookup_insert_eq. rewrite decide_True; [done|]. by left.
      * rewrite lookup_insert_ne by done. rewrite decide_False; [done|].
        rewrite elem_of_cons. by intros [?|?].
Qed.

Lemma associate_loop_run (idx : nat) (l : list nat) : ∀ s,
  ∃ s',
    associate_loop idx l s
    = Some (bool_decide (Forall (λ i, i < num_triangles_ s) l), s')
    ∧ triangle_to_reflection_map_ s'
      = foldl (λ m i, <[i := idx]> m) (triangle_to_reflection_map_ s)
          (in_range_prefix (num_triangles_ s) l)
    ∧ reflections_ s' = reflections_ s
    ∧ registry_frame s s'.
Proof.
  induction l as [|i l IH]; intros s; cbn [associate_loop in_range_prefix].
  - exists s. by split_and!.
  - step_by reflexivity. case_decide as Hi.
    + exists s. rewrite bool_decide_eq_false_2; [by split_and!|].
      rewrite Forall_cons. lia.
    + step_by reflexivity. step_by reflexivity.
      match goal with |- context [associate_loop idx l ?st] =>
        destruct (IH st) as (s' & Hrun & Hmap & Hrefl & Hframe)
      end.
      revert Hrun Hmap Hrefl Hframe. unfold registry_frame. simpl_state.
      intros Hrun Hmap Hrefl Hframe.
      exists s'. split_and!; try tauto.
      rewrite Hrun. do 2 f_equal. apply bool_decide_ext.
      rewrite Forall_cons. intuition lia.
Qed.

(** What [AssociateReflectionKernelToTriangles] leaves behind: it always
    returns, with the kernel appended and the in-range prefix of the
    indices mapped to it. *)
Lemma AssociateReflectionKernelToTriangles_run
    (K : ReflectionKernel) (l : list nat) s :
  ∃ s',
    AssociateReflectionKernelToTriangles K l s
    = Some (bool_decide (Forall (λ i, i < num_triangles_ s) l), s')
    ∧ reflections_ s' = reflections_ s ++ [K]
    ∧ triangle_to_reflection_map_ s'
      = foldl (λ m i, <[i := length (reflections_ s)]> m)
          (triangle_to_reflection_map_ s)
          (in_range_prefix (num_triangles_ s) l)
    ∧ registry_frame s s'.
Proof.
  unfold AssociateReflectionKernelToTriangles.
  step_by reflexivity. step_by reflexivity.
  match goal with |- context [associate_loop ?idx l ?st] =>
    destruct (associate_loop_run idx l st) as (s' & Hrun & Hmap & Hrefl & Hframe)
  end.
  revert Hrun Hmap Hrefl Hframe. unfold registry_frame. simpl_state.
  intros Hrun Hmap Hrefl Hframe.
  exists s'. split_and!; try tauto.
Qed.


Lemma reachable_if_live guard init s : reachable_if SphereBounds SphereIntersection guard init s -> live s.
Proof.
  induction 1 as [s Hnew|s V T s' _ IH _ Hrun|s K l ok s' _ IH Hrun
                 |s L r s' _ IH Hrun].
  - injection Hnew as <-. unfold live. simpl_state.
    split_and!; [by eexists|by eexists|done|lia].
  - destruct IH as ([sc Hsc] & [lsc Hlsc] & Hne & Hlt).
    destruct (BuildScene_run V T s sc Hsc)
      as (s1 & g & bi & Hrun1 & _ & Hscenes & Hnext & _ & _ & _ & _ & _
          & Hs & Hls & _).
    assert (s1 = s') as -> by congruence.
    unfold live. rewrite Hscenes, Hnext, Hs, Hls. split_and!.
    + rewrite lookup_insert_eq. by eexists.
    + rewrite lookup_insert_ne by done. by eexists.
    + done.
    + lia.
  - destruct (AssociateReflectionKernelToTriangles_run K l s)
      as (s1 & Hrun1 & _ & _ & Hd & Hs & Hls & _).
    assert (s1 = s') as -> by congruence.
    unfold live. by rewrite Hd, Hs, Hls.
  - destruct IH as ([sc Hsc] & [lsc Hlsc] & Hne & Hlt).
    destruct (BuildListenerScene_run L r s lsc Hlsc)
      as (s1 & Hrun1 & Hls & Hscenes & Hnext & _ & _ & Hs & _).
    assert (s1 = s') as -> by congruence.
    unfold live. rewrite Hscenes, Hnext, Hs, Hls. split_and!.
    + rewrite lookup_insert_ne by lia. rewrite lookup_delete_ne by done.
      by eexists.
    + rewrite lookup_insert_eq. by eexists.
    + lia.
    + lia.
Qed.

(** On a reachable state every member function returns. *)
Lemma reachable_if_total guard init s :
  reachable_if SphereBounds SphereIntersection guard init s ->
  (∀ V T, is_Some (BuildScene V T s))
  ∧ (∀ K l, is_Some (AssociateReflectionKernelToTriangles K l s))
  ∧ (∀ L r, is_Some (BuildListenerScene SphereBounds SphereIntersection L r s)).
Proof.
  intros ([sc Hsc] & [lsc Hlsc] & _)%reachable_if_live. split_and!.
  - intros V T. destruct (BuildScene_run V T s sc Hsc) as (s' & ? & ? & -> & _).
    by eexists.
  - intros K l.
    destruct (AssociateReflectionKernelToTriangles_run K l s) as (s' & -> & _).
    by eexists.
  - intros L r. destruct (BuildListenerScene_run L r s lsc Hlsc) as (s' & -> & _).
    by eexists.
Qed.


(** ** The world scene *)

(** C1.  [BuildScene] on a manager whose world scene is live returns, and
    the mesh it has attached to the committed world scene is a triangle
    geometry whose index buffer holds, for the triangle (v0, v1, v2) at
    position i of the triangle buffer, v0 in cell 3i, v2 in cell 3i+1 and v1
    in cell 3i+2. *)
Theorem BuildScene_winding_order (V : list Vertex) (T : list Triangle) s sc :
  scenes (device_ s) !! scene_ s = Some sc ->
  ∃ s' sc' mesh g index_buffer,
    BuildScene V T s = Some (tt, s')
    ∧ scenes (device_ s') !! scene_ s' = Some sc'
    ∧ committed sc' = true
    ∧ attached sc' !! length (attached sc) = Some mesh
    ∧ geometries (device_ s') !! mesh = Some g
    ∧ geometry_type g = RTC_GEOMETRY_TYPE_TRIANGLE
    ∧ buffers g !! (RTC_BUFFER_TYPE_INDEX, 0) = Some index_buffer
    ∧ length index_buffer = 3 * length T
    ∧ ∀ i t, T !! i = Some t ->
        index_buffer !! (3 * i) = Some (Some (I32 (v0 t)))
        ∧ index_buffer !! (3 * i + 1) = Some (Some (I32 (v2 t)))
        ∧ index_buffer !! (3 * i + 2) = Some (Some (I32 (v1 t))).
Proof.
  intros Hsc.
  destruct (BuildScene_run V T s sc Hsc)
    as (s' & g & bi & Hrun & Hgeoms & Hscenes & _ & Htype & _ & Hbuf & Hlen
        & Hcells & Hs & _).
  exists s', {| attached := attached sc ++ [next_handle (device_ s)];
                committed := true |}, (next_handle (device_ s)), g, bi.
  split_and!; try done.
  - rewrite Hs, Hscenes. apply lookup_insert_eq.
  - cbn. rewrite lookup_app_r by done. by rewrite Nat.sub_diag.
  - rewrite Hgeoms. apply lookup_insert_eq.
Qed.

(** ** The reflection-kernel registry *)

Lemma association_success K (l : list nat) s s' :
  AssociateReflectionKernelToTriangles K l s = Some (true, s') ->
  reflections_ s' = reflections_ s ++ [K]
  ∧ ∀ i, i ∈ l ->
      triangle_to_reflection_map_ s' !! i = Some (length (reflections_ s)).
Proof.
  intros Hrun.
  destruct (AssociateReflectionKernelToTriangles_run K l s)
    as (s1 & Hrun1 & Hrefl & Hmap & _).
  rewrite Hrun in Hrun1. injection Hrun1 as Hok <-.
  symmetry in Hok. apply bool_decide_eq_true in Hok.
  split; [done|]. intros i Hi.
  rewrite Hmap, lookup_foldl_insert, in_range_prefix_all by done.
  by rewrite decide_True.
Qed.

Lemma lookup_snoc_length {A} (l : list A) (x : A) :
  (l ++ [x]) !! length l = Some x.
Proof. rewrite lookup_app_r by done. by rewrite Nat.sub_diag. Qed.

(** C3.  [AssociateReflectionKernelToTriangles] returns; it reports success
    exactly when every index is below the recorded triangle count; and on
    success every index of the set is mapped to the position the kernel has
    in the registry, so that the lookup yields the kernel. *)
Theorem association_succeeds_iff_in_range (K : ReflectionKernel) (l : list nat) s :
  ∃ ok s',
    AssociateReflectionKernelToTriangles K l s = Some (ok, s')
    ∧ (ok = true ↔ ∀ i, i ∈ l -> i < num_triangles_ s)
    ∧ (ok = true -> ∀ i, i ∈ l ->
         triangle_to_reflection_map_ s' !! i = Some (length (reflections_ s))
         ∧ reflections_ s' !! length (reflections_ s) = Some K
         ∧ ReflectionKernelForTriangle s' i = Some K).
Proof.
  destruct (AssociateReflectionKernelToTriangles_run K l s)
    as (s' & Hrun & Hrefl & Hmap & _).
  eexists _, s'. split; [exact Hrun|]. split.
  - rewrite bool_decide_eq_true. apply Forall_forall.
  - intros Hall%bool_decide_eq_true i Hi.
    assert (triangle_to_reflection_map_ s' !! i = Some (length (reflections_ s)))
      as Hi'.
    { rewrite Hmap, lookup_foldl_insert, in_range_prefix_all by done.
      by rewrite decide_True. }
    assert (reflections_ s' !! length (reflections_ s) = Some K) as HK.
    { rewrite Hrefl. apply lookup_snoc_length. }
    unfold ReflectionKernelForTriangle. by rewrite Hi', HK.
Qed.

(** C9.  Every call of [AssociateReflectionKernelToTriangles], whatever it
    reports, returns with the kernel appended to the registry: the registry
    is one entry longer. *)
Theorem association_always_appends (K : ReflectionKernel) (l : list nat) s :
  ∃ ok s',
    AssociateReflectionKernelToTriangles K l s = Some (ok, s')
    ∧ reflections_ s' = reflections_ s ++ [K]
    ∧ length (reflections_ s') = S (length (reflections_ s)).
Proof.
  destruct (AssociateReflectionKernelToTriangles_run K l s)
    as (s' & Hrun & Hrefl & _).
  eexists _, s'. split_and!; [exact Hrun|done|].
  rewrite Hrefl, length_app. cbn. lia.
Qed.

(** C2, as the code has it.  When the call reports failure the kernel has
    been appended all the same, the in-range indices met before the first
    out-of-range one are mapped to it, and every other map entry and every
    other member is as before the call. *)
Theorem association_failure_is_partial (K : ReflectionKernel) (l : list nat)
    s s' :
  AssociateReflectionKernelToTriangles K l s = Some (false, s') ->
  (∃ i, i ∈ l ∧ num_triangles_ s ≤ i)
  ∧ reflections_ s' = reflections_ s ++ [K]
  ∧ (∀ i, triangle_to_reflection_map_ s' !! i
       = if decide (i ∈ in_range_prefix (num_triangles_ s) l)
         then Some (length (reflections_ s))
         else triangle_to_reflection_map_ s !! i)
  ∧ registry_frame s s'.
Proof.
  intros Hrun.
  destruct (AssociateReflectionKernelToTriangles_run K l s)
    as (s1 & Hrun1 & Hrefl & Hmap & Hframe).
  rewrite Hrun in Hrun1. injection Hrun1 as Hok <-.
  symmetry in Hok. apply bool_decide_eq_false in Hok.
  split_and!; try done.
  - apply not_Forall_Exists in Hok; [|apply _].
    apply Exists_exists in Hok as (i & Hi & Hge). unfold compose in Hge.
    exists i. split; [done|lia].
  - intros i. by rewrite Hmap, lookup_foldl_insert.
Qed.

(** C10.  After two successful calls whose index sets share the index i,
    the lookup of i yields the kernel of the later call. *)
Theorem later_association_wins (K1 K2 : ReflectionKernel) (l1 l2 : list nat)
    s s1 s2 i :
  AssociateReflectionKernelToTriangles K1 l1 s = Some (true, s1) ->
  AssociateReflectionKernelToTriangles K2 l2 s1 = Some (true, s2) ->
  i ∈ l1 -> i ∈ l2 ->
  ReflectionKernelForTriangle s1 i = Some K1
  ∧ triangle_to_reflection_map_ s2 !! i = Some (S (length (reflections_ s)))
  ∧ reflections_ s2 = reflections_ s ++ [K1; K2]
  ∧ ReflectionKernelForTriangle s2 i = Some K2.
Proof.
  intros Hrun1 Hrun2 Hi1 Hi2.
  destruct (association_success K1 l1 s s1 Hrun1) as [Hrefl1 Hmap1].
  destruct (association_success K2 l2 s1 s2 Hrun2) as [Hrefl2 Hmap2].
  assert (length (reflections_ s1) = S (length (reflections_ s))) as Hlen.
  { rewrite Hrefl1, length_app. cbn. lia. }
  unfold ReflectionKernelForTriangle.
  rewrite (Hmap1 i Hi1), (Hmap2 i Hi2), Hrefl2, Hrefl1.
  split_and!.
  - apply lookup_snoc_length.
  - by rewrite <-Hrefl1, Hlen.
  - by rewrite <-app_assoc.
  - rewrite <-Hrefl1. apply lookup_snoc_length.
Qed.


(** ** The listener scene *)

(** C5.  [BuildListenerScene] on a manager whose listener scene is live
    returns; the new listener scene is committed and holds as many
    geometries as there are listeners; the k-th is a user geometry of one
    primitive whose user data is a single sphere with the position of the
    k-th listener as its center, the given radius and the identifier k, and
    with the two adapters installed; and the identifier k resolves to the
    listener index k. *)
Theorem BuildListenerScene_registers_spheres
    (L : list AcousticListener) (r : float) s sc :
  scenes (device_ s) !! listener_scene_ s = Some sc ->
  ∃ s' lsc,
    BuildListenerScene SphereBounds SphereIntersection L r s = Some (tt, s')
    ∧ scenes (device_ s') !! listener_scene_ s' = Some lsc
    ∧ committed lsc = true
    ∧ length (attached lsc) = length L
    ∧ ∀ k listener, L !! k = Some listener ->
        ∃ h g sphere,
          attached lsc !! k = Some h
          ∧ geometries (device_ s') !! h = Some g
          ∧ geometry_type g = RTC_GEOMETRY_TYPE_USER
          ∧ user_primitive_count g = 1
          ∧ user_data g = [sphere]
          ∧ center sphere
            = (position listener 0, position listener 1, position listener 2)
          ∧ radius sphere = r
          ∧ geometry_id sphere = k
          ∧ bounds_function g = Some (EmbreeSphereBoundsFunction SphereBounds)
          ∧ intersect_function g
            = Some (EmbreeSphereIntersectFunction SphereIntersection)
          ∧ ListenerIndexForGeometry s' k = Some k.
Proof.
  intros Hsc.
  destruct (BuildListenerScene_run L r s sc Hsc)
    as (s' & Hrun & Hls & Hscenes & _ & Hnew & Hmap & _).
  exists s', {| attached := seq (S (next_handle (device_ s))) (length L);
                committed := true |}.
  split_and!; try done.
  - rewrite Hls, Hscenes. apply lookup_insert_eq.
  - cbn. apply length_seq.
  - intros k listener Hk.
    assert (k < length L) as Hlt by (by apply lookup_lt_Some in Hk).
    exists (S (next_handle (device_ s)) + k),
      (listener_geometry SphereBounds SphereIntersection listener r k).
    eexists. split_and!; [| |reflexivity..|].
    + cbn. by apply lookup_seq_lt.
    + by apply Hnew.
    + unfold ListenerIndexForGeometry. rewrite Hmap. by rewrite decide_True.
Qed.

(** C4, as the code has it.  [BuildListenerScene] never removes an entry
    of the sphere map: after the call the keys are the old keys together
    with the identifiers 0, ..., |L|-1 of the new scene; each new
    identifier resolves to the listener of the same index, and every
    other identifier resolves as it did before the call. *)
Theorem BuildListenerScene_keeps_old_ids
    (L : list AcousticListener) (r : float) s sc :
  scenes (device_ s) !! listener_scene_ s = Some sc ->
  ∃ s' lsc,
    BuildListenerScene SphereBounds SphereIntersection L r s = Some (tt, s')
    ∧ scenes (device_ s') !! listener_scene_ s' = Some lsc
    ∧ length (attached lsc) = length L
    ∧ dom (sphere_to_listener_map_ s')
      = dom (sphere_to_listener_map_ s) ∪ list_to_set (seq 0 (length L))
    ∧ (∀ id, id < length L -> sphere_to_listener_map_ s' !! id = Some id)
    ∧ (∀ id, length L ≤ id ->
         sphere_to_listener_map_ s' !! id = sphere_to_listener_map_ s !! id).
Proof.
  intros Hsc.
  destruct (BuildListenerScene_run L r s sc Hsc)
    as (s' & Hrun & Hls & Hscenes & _ & _ & Hmap & _).
  exists s', {| attached := seq (S (next_handle (device_ s))) (length L);
                committed := true |}.
  split_and!; try done.
  - rewrite Hls, Hscenes. apply lookup_insert_eq.
  - cbn. apply length_seq.
  - apply set_eq. intros id.
    rewrite elem_of_union, !elem_of_dom, elem_of_list_to_set, elem_of_seq, Hmap.
    case_decide; [|intuition lia].
    split; [intros _; right; lia|by eexists].
  - intros id Hid. rewrite Hmap. by rewrite decide_True.
  - intros id Hid. rewrite Hmap. rewrite decide_False by lia. done.
Qed.

(** ** The triangle map and the triangle count *)

(** C6, as the code has it.  [BuildScene] replaces the triangle count and
    leaves the triangle map alone.  So the keys stay below the recorded
    count at every state reached by calls among which each [BuildScene]
    is given more triangles than the largest key then in the map;
    association calls, the failing ones too, and listener-scene builds
    preserve the bound. *)
Theorem keys_in_range_while_builds_cover init s :
  reachable_if SphereBounds SphereIntersection covers_keys init s -> keys_in_range s.
Proof.
  induction 1 as [s Hnew|s V T s' Hreach IH Hguard Hrun|s K l ok s' Hreach IH Hrun
                 |s L r s' Hreach IH Hrun].
  - injection Hnew as <-. intros i j. simpl_state. by rewrite lookup_empty.
  - apply reachable_if_live in Hreach as ([sc Hsc] & _).
    destruct (BuildScene_run V T s sc Hsc)
      as (s1 & g & bi & Hrun1 & _ & _ & _ & _ & _ & _ & _ & _ & _ & _ & _ & _
          & _ & Hmap & _ & _ & Hnum).
    assert (s1 = s') as -> by congruence.
    intros i j. rewrite Hmap, Hnum. apply Hguard.
  - destruct (AssociateReflectionKernelToTriangles_run K l s)
      as (s1 & Hrun1 & _ & Hmap & Hframe).
    assert (s1 = s') as -> by congruence.
    destruct Hframe as (_ & _ & _ & _ & _ & _ & _ & Hnum).
    intros i j. rewrite Hmap, Hnum, lookup_foldl_insert.
    case_decide as Hin; [intros _|apply IH].
    pose proof (in_range_prefix_in_range (num_triangles_ s) l) as Hall.
    rewrite Forall_forall in Hall. by apply Hall.
  - apply reachable_if_live in Hreach as (_ & [lsc Hlsc] & _).
    destruct (BuildListenerScene_run L r s lsc Hlsc)
      as (s1 & Hrun1 & _ & _ & _ & _ & _ & _ & _ & _ & _ & Hmap & _ & Hnum).
    assert (s1 = s') as -> by congruence.
    intros i j. rewrite Hmap, Hnum. apply IH.
Qed.

(** ** The intersection adapter *)

(** C7.  The assertion of the intersection adapter fires exactly when the
    batch width differs from 1; hence never while rays come one at a
    time. *)
Theorem intersect_adapter_asserts_single_ray
    (args : RTCIntersectFunctionNArguments) :
  EmbreeSphereIntersectFunction SphereIntersection args = AssertionFailed
  ↔ args_N args ≠ 1.
Proof.
  unfold EmbreeSphereIntersectFunction.
  destruct (Nat.eqb_spec (args_N args) 1) as [->|Hne]; cbn.
  - split; [|done]. intros H. exfalso. revert H.
    destruct (valid args !! 0) as [v|]; [|done].
    destruct (negb (v =? -1)%Z); [done|].
    by destruct (geometryUserPtr args !! primID args).
  - done.
Qed.



(** ** Further properties of the registry *)

Lemma in_range_prefix_subseteq n l i : i ∈ in_range_prefix n l -> i ∈ l.
Proof.
  induction l as [|j l IH]; cbn; [done|].
  case_decide; [intros H'; by apply elem_of_nil in H'|].
  rewrite !elem_of_cons. intros [?|?]; [by left | right; by apply IH].
Qed.

Lemma SceneManager_eq s1 s2 :
  device_ s1 = device_ s2 -> scene_ s1 = scene_ s2 ->
  listener_scene_ s1 = listener_scene_ s2 ->
  is_scene_committed_ s1 = is_scene_committed_ s2 ->
  is_listener_scene_committed_ s1 = is_listener_scene_committed_ s2 ->
  reflections_ s1 = reflections_ s2 ->
  triangle_to_reflection_map_ s1 = triangle_to_reflection_map_ s2 ->
  sphere_to_listener_map_ s1 = sphere_to_listener_map_ s2 ->
  num_vertices_ s1 = num_vertices_ s2 ->
  num_triangles_ s1 = num_triangles_ s2 ->
  s1 = s2.
Proof. destruct s1, s2; cbn; intros; by subst. Qed.

(** X5.  An association call, whatever it reports, leaves the engine, the
    sphere map, the counts and the flags alone, keeps the map entry of
    every triangle outside the index set, and keeps every earlier kernel
    at its place in the registry. *)
Theorem association_keeps_the_rest (K : ReflectionKernel) (l : list nat) s :
  ∃ ok s',
    AssociateReflectionKernelToTriangles K l s = Some (ok, s')
    ∧ registry_frame s s'
    ∧ (∀ i, i ∉ l ->
         triangle_to_reflection_map_ s' !! i = triangle_to_reflection_map_ s !! i)
    ∧ (∀ j, j < length (reflections_ s) ->
         reflections_ s' !! j = reflections_ s !! j).
Proof.
  destruct (AssociateReflectionKernelToTriangles_run K l s)
    as (s' & Hrun & Hrefl & Hmap & Hframe).
  eexists _, s'. split_and!; [exact Hrun|done| |].
  - intros i Hi. rewrite Hmap, lookup_foldl_insert.
    rewrite decide_False; [done|]. intros Hin. apply Hi.
    by eapply in_range_prefix_subseteq.
  - intros j Hj. rewrite Hrefl. by apply lookup_app_l.
Qed.

(** X6.  The order in which the index set is iterated decides neither the
    report nor the registry, and when the call succeeds it does not
    decide the resulting manager either. *)
Theorem association_order_irrelevant (K : ReflectionKernel)
    (l1 l2 : list nat) s :
  l1 ≡ₚ l2 ->
  ∃ ok s1 s2,
    AssociateReflectionKernelToTriangles K l1 s = Some (ok, s1)
    ∧ AssociateReflectionKernelToTriangles K l2 s = Some (ok, s2)
    ∧ reflections_ s1 = reflections_ s2
    ∧ (ok = true -> s1 = s2).
Proof.
  intros Hperm.
  destruct (AssociateReflectionKernelToTriangles_run K l1 s)
    as (s1 & Hrun1 & Hrefl1 & Hmap1 & Hframe1).
  destruct (AssociateReflectionKernelToTriangles_run K l2 s)
    as (s2 & Hrun2 & Hrefl2 & Hmap2 & Hframe2).
  exists (bool_decide (Forall (λ i, i < num_triangles_ s) l1)), s1, s2.
  split_and!; [exact Hrun1| |congruence|].
  - rewrite Hrun2. do 2 f_equal. apply bool_decide_ext. by rewrite Hperm.
  - intros Hall%bool_decide_eq_true.
    assert (Forall (λ i, i < num_triangles_ s) l2) as Hall2
      by (by rewrite <-Hperm).
    destruct Hframe1 as (? & ? & ? & ? & ? & ? & ? & ?).
    destruct Hframe2 as (? & ? & ? & ? & ? & ? & ? & ?).
    apply SceneManager_eq; try congruence.
    rewrite Hmap1, Hmap2, !in_range_prefix_all by done.
    apply map_eq. intros k. rewrite !lookup_foldl_insert.
    destruct (decide (k ∈ l1)) as [Hk|Hk].
    + rewrite decide_True; [done|]. by rewrite <-Hperm.
    + rewrite decide_False; [done|]. by rewrite <-Hperm.
Qed.

Lemma reachable_if_entries_resolve guard init s :
  reachable_if SphereBounds SphereIntersection guard init s ->
  entries_resolve s.
Proof.
  induction 1 as [s Hnew|s V T s' Hreach IH Hguard Hrun|s K l ok s' Hreach IH Hrun
                 |s L r s' Hreach IH Hrun].
  - injection Hnew as <-. intros i j. simpl_state. by rewrite lookup_empty.
  - apply reachable_if_live in Hreach as ([sc Hsc] & _).
    destruct (BuildScene_run V T s sc Hsc)
      as (s1 & g & bi & Hrun1 & _ & _ & _ & _ & _ & _ & _ & _ & _ & _ & _ & _
          & Hrefl & Hmap & _).
    assert (s1 = s') as -> by congruence.
    intros i j. rewrite Hmap, Hrefl. apply IH.
  - destruct (AssociateReflectionKernelToTriangles_run K l s)
      as (s1 & Hrun1 & Hrefl & Hmap & _).
    assert (s1 = s') as -> by congruence.
    intros i j. rewrite Hmap, Hrefl, lookup_foldl_insert, length_app. cbn.
    case_decide.
    + intros [= <-]. lia.
    + intros Hi. apply IH in Hi. lia.
  - apply reachable_if_live in Hreach as (_ & [lsc Hlsc] & _).
    destruct (BuildListenerScene_run L r s lsc Hlsc)
      as (s1 & Hrun1 & _ & _ & _ & _ & _ & _ & _ & _ & Hrefl & Hmap & _).
    assert (s1 = s') as -> by congruence.
    intros i j. rewrite Hmap, Hrefl. apply IH.
Qed.

(** X7.  At every reachable state each entry of the triangle map points at an
    entry of the registry: a triangle that has an entry resolves to a
    kernel. *)
Theorem associated_triangles_resolve init s i j :
  reachable SphereBounds SphereIntersection init s ->
  triangle_to_reflection_map_ s !! i = Some j ->
  j < length (reflections_ s)
  ∧ ∃ K, reflections_ s !! j = Some K
         ∧ ReflectionKernelForTriangle s i = Some K.
Proof.
  intros Hreach Hi.
  pose proof (reachable_if_entries_resolve _ _ _ Hreach i j Hi) as Hj.
  split; [done|].
  destruct (lookup_lt_is_Some_2 (reflections_ s) j Hj) as [K HK].
  exists K. split; [done|].
  unfold ReflectionKernelForTriangle. by rewrite Hi.
Qed.

(** ** Further properties of the world scene *)

Lemma vertex_loop_cells (V : list Vertex) h key g s count : ∀ start b,
  start + count ≤ length V ->
  4 * (start + count) ≤ length b ->
  ∃ b',
    for_range start count (λ i,
      v <- at_index V i ;;
      engine (poke (h, key) (4 * i + EmbreeVertex_x) (F32 (vertex_x v))) ;;;
      engine (poke (h, key) (4 * i + EmbreeVertex_y) (F32 (vertex_y v))) ;;;
      engine (poke (h, key) (4 * i + EmbreeVertex_z) (F32 (vertex_z v))))
      (put_buffer h key g b s)
    = Some (tt, put_buffer h key g b' s)
    ∧ length b' = length b
    ∧ (∀ p, (∀ i, start ≤ i < start + count ->
               p ≠ 4 * i ∧ p ≠ 4 * i + 1 ∧ p ≠ 4 * i + 2) ->
         b' !! p = b !! p)
    ∧ (∀ i v, start ≤ i < start + count -> V !! i = Some v ->
         b' !! (4 * i) = Some (Some (F32 (vertex_x v)))
         ∧ b' !! (4 * i + 1) = Some (Some (F32 (vertex_y v)))
         ∧ b' !! (4 * i + 2) = Some (Some (F32 (vertex_z v)))).
Proof.
  unfold EmbreeVertex_x, EmbreeVertex_y, EmbreeVertex_z.
  induction count as [|count IH]; intros start b HV Hb.
  - exists b. split_and!; [done|done|done|]. intros i v Hi. lia.
  - destruct (lookup_lt_is_Some_2 V start) as [v Hv]; [lia|].
    cbn [for_range].
    erewrite bind_Some; cycle 1.
    { erewrite bind_Some by (by apply at_index_Some).
      erewrite bind_Some by (apply poke_put_buffer; lia).
      erewrite bind_Some by (apply poke_put_buffer; rewrite length_insert; lia).
      apply poke_put_buffer. rewrite !length_insert. lia. }
    edestruct (IH (S start)) as (b' & Hrun & Hlen & Hframe & Hcells);
      [lia| |exists b'; split; [exact Hrun|]].
    { rewrite !length_insert. lia. }
    clear Hrun IH. rewrite !length_insert in Hlen.
    split_and!; [done| |].
    + intros p Hp. rewrite Hframe by (intros i Hi; apply Hp; lia).
      specialize (Hp start ltac:(lia)).
      rewrite !list_lookup_insert_ne by lia. done.
    + intros i v' Hi Hi'. destruct (decide (i = start)) as [->|Hne].
      * assert (v' = v) as -> by congruence.
        rewrite !Hframe by (intros i Hi''; lia). split_and!.
        -- rewrite !list_lookup_insert_ne by lia.
           rewrite <-(Nat.add_0_r (4 * start)) at 1.
           apply list_lookup_insert_eq. lia.
        -- rewrite list_lookup_insert_ne by lia.
           apply list_lookup_insert_eq. rewrite length_insert. lia.
        -- apply list_lookup_insert_eq. rewrite !length_insert. lia.
      * apply Hcells; [lia|done].
Qed.

(** The mesh [BuildScene] creates, with both of its buffers. *)
Lemma BuildScene_run_mesh (V : list Vertex) (T : list Triangle) s sc :
  scenes (device_ s) !! scene_ s = Some sc ->
  ∃ s' bv bi,
    BuildScene V T s = Some (tt, s')
    ∧ geometries (device_ s')
      = <[next_handle (device_ s) :=
            {| ref_count := 1;
               geometry_type := RTC_GEOMETRY_TYPE_TRIANGLE;
               build_quality := RTC_BUILD_QUALITY_MEDIUM;
               time_step_count := 1;
               user_primitive_count := 0;
               buffers := <[(RTC_BUFFER_TYPE_INDEX, 0) := bi]>
                            (<[(RTC_BUFFER_TYPE_VERTEX, 0) := bv]> ∅);
               user_data := [];
               bounds_function := None;
               intersect_function := None |}]> (geometries (device_ s))
    ∧ length bv = 4 * length V
    ∧ (∀ i v, V !! i = Some v ->
         bv !! (4 * i) = Some (Some (F32 (vertex_x v)))
         ∧ bv !! (4 * i + 1) = Some (Some (F32 (vertex_y v)))
         ∧ bv !! (4 * i + 2) = Some (Some (F32 (vertex_z v)))
         ∧ bv !! (4 * i + 3) = Some None).
Proof.
  intros Hsc. unfold BuildScene.
  step_by reflexivity.
  step_by reflexivity.
  step_by reflexivity.
  set (h := next_handle (device_ s)).
  step_by (eapply engine_update_geometry; [apply lookup_insert_eq | reflexivity]).
  step_by (eapply engine_update_geometry; [apply lookup_insert_eq | reflexivity]).
  step_by reflexivity.
  step_by (eapply engine_rtcAttachGeometry; [exact Hsc | apply lookup_insert_eq]).
  step_by (eapply engine_rtcReleaseGeometry; apply lookup_insert_eq).
  erewrite drop_reference_shared by reflexivity. simpl_state.
  step_by reflexivity.
  step_by (eapply rtcSetNewGeometryBuffer_put_buffer; apply lookup_insert_eq).
  change ((4 * sizeof_float) `div` 4) with 4.
  match goal with |- context [put_buffer h ?key ?g ?b ?s] =>
    destruct (vertex_loop_cells V h key g s (length V) 0 b)
      as (bv & Hv & Hlv & Hpad & Hvcells)
  end; [done | by rewrite length_replicate |].
  step_by (exact Hv). clear Hv.
  open_buffer.
  step_by reflexivity.
  step_by (eapply rtcSetNewGeometryBuffer_put_buffer; apply lookup_insert_eq).
  change ((3 * sizeof_int) `div` 4) with 3.
  match goal with |- context [put_buffer h ?key ?g ?b ?s] =>
    destruct (index_loop T h key g s (length T) 0 b) as (bi & Hi & _)
  end; [done | by rewrite length_replicate |].
  step_by (exact Hi). clear Hi.
  open_buffer.
  step_by reflexivity.
  step_by (eapply engine_rtcCommitScene; apply lookup_insert_eq).
  rewrite length_replicate in Hlv.
  eexists _, bv, bi. split; [reflexivity|]. simpl_state.
  split_and!; [reflexivity|done|].
  intros i v Hv. apply lookup_lt_Some in Hv as Hlt.
  destruct (Hvcells i v ltac:(lia) Hv) as (Hx & Hy & Hz).
  split_and!; [done..|].
  rewrite Hpad by (intros; lia).
  apply lookup_replicate_2. lia.
Qed.

(** X1.  [BuildScene] copies the vertices into a buffer of four cells a
    vertex: x, y and z of vertex i go to the cells 4i, 4i+1 and 4i+2, and
    the padding cell 4i+3 is never written. *)
Theorem BuildScene_vertex_buffer (V : list Vertex) (T : list Triangle) s sc :
  scenes (device_ s) !! scene_ s = Some sc ->
  ∃ s' sc' mesh g vertex_buffer,
    BuildScene V T s = Some (tt, s')
    ∧ scenes (device_ s') !! scene_ s' = Some sc'
    ∧ attached sc' !! length (attached sc) = Some mesh
    ∧ geometries (device_ s') !! mesh = Some g
    ∧ buffers g !! (RTC_BUFFER_TYPE_VERTEX, 0) = Some vertex_buffer
    ∧ length vertex_buffer = 4 * length V
    ∧ ∀ i v, V !! i = Some v ->
        vertex_buffer !! (4 * i) = Some (Some (F32 (vertex_x v)))
        ∧ vertex_buffer !! (4 * i + 1) = Some (Some (F32 (vertex_y v)))
        ∧ vertex_buffer !! (4 * i + 2) = Some (Some (F32 (vertex_z v)))
        ∧ vertex_buffer !! (4 * i + 3) = Some None.
Proof.
  intros Hsc.
  destruct (BuildScene_run_mesh V T s sc Hsc)
    as (s' & bv & bi & Hrun & Hgeoms & Hlen & Hcells).
  destruct (BuildScene_run V T s sc Hsc)
    as (s1 & g1 & bi1 & Hrun1 & _ & Hscenes & _ & _ & _ & _ & _ & _ & Hs & _).
  assert (s1 = s') as -> by congruence.
  eexists s', _, (next_handle (device_ s)), _, bv.
  split_and!; [done| | | | |done|done].
  - rewrite Hs, Hscenes. apply lookup_insert_eq.
  - cbn. rewrite lookup_app_r by done. by rewrite Nat.sub_diag.
  - rewrite Hgeoms. apply lookup_insert_eq.
  - cbn. rewrite lookup_insert_ne by done. apply lookup_insert_eq.
Qed.

(** ** The store *)

Lemma lookup_foldr_drop_reference (l : list handle)
    (m : gmap handle RTCGeometryObject) :
  (∀ h g, m !! h = Some g -> ref_count g ≤ 1) ->
  ∀ h, foldr drop_reference m l !! h
       = if decide (h ∈ l) then None else m !! h.
Proof.
  intros Hm. induction l as [|a l IH]; intros h; cbn [foldr].
  - rewrite decide_False; [done|]. apply not_elem_of_nil.
  - unfold drop_reference at 1.
    destruct (foldr drop_reference m l !! a) as [g|] eqn:Ha.
    + rewrite IH in Ha. case_decide as Hal; [done|].
      apply Hm in Ha as Hg.
      assert (delete a (foldr drop_reference m l) !! h
              = if decide (h ∈ a :: l) then None else m !! h) as Hdel.
      { destruct (decide (h = a)) as [->|Hne].
        - rewrite lookup_delete_eq. rewrite decide_True; [done|]. by left.
        - rewrite lookup_delete_ne, IH by done.
          destruct (decide (h ∈ l)) as [Hl|Hl].
          + rewrite decide_True; [done|]. by right.
          + rewrite decide_False; [done|]. rewrite elem_of_cons. by intros [?|?]. }
      destruct (ref_count g) as [|[|n]]; [done|done|lia].
    + destruct (decide (h = a)) as [->|Hne].
      * rewrite Ha. rewrite decide_True; [done|]. by left.
      * rewrite IH. destruct (decide (h ∈ l)) as [Hl|Hl].
        -- rewrite decide_True; [done|]. by right.
        -- rewrite decide_False; [done|]. rewrite elem_of_cons. by intros [?|?].
Qed.

Lemma listener_loop_geometries listeners r count : ∀ start s sc,
  start + count ≤ length listeners ->
  scenes (device_ s) !! listener_scene_ s = Some sc ->
  ∃ s',
    for_range start count
      (listener_body SphereBounds SphereIntersection listeners r) s
    = Some (tt, s')
    ∧ ∀ h, ¬ (next_handle (device_ s) ≤ h < next_handle (device_ s) + count) ->
        geometries (device_ s') !! h = geometries (device_ s) !! h.
Proof.
  induction count as [|count IH]; intros start s sc Hlen Hsc.
  - by exists s.
  - destruct (lookup_lt_is_Some_2 listeners start) as [listener Hl]; [lia|].
    cbn [for_range].
    step_by (by eapply listener_body_run).
    edestruct (IH (S start)) as (s' & Hrun & Hframe);
      [ | | exists s'; split; [exact Hrun|] ].
    { lia. }
    { simpl_state. apply lookup_insert_eq. }
    clear Hrun IH. revert Hframe. simpl_state. intros Hframe.
    intros h Hh. rewrite Hframe by lia. apply lookup_insert_ne. lia.
Qed.

(** The geometries [BuildListenerScene] leaves in the store besides the
    new ones: those the release of the previous scene has left. *)
Lemma BuildListenerScene_run_store
    (listeners : list AcousticListener) (r : float) s sc :
  scenes (device_ s) !! listener_scene_ s = Some sc ->
  ∃ s',
    BuildListenerScene SphereBounds SphereIntersection listeners r s = Some (tt, s')
    ∧ ∀ h, ¬ (S (next_handle (device_ s)) ≤ h
              < S (next_handle (device_ s)) + length listeners) ->
        geometries (device_ s') !! h
        = foldr drop_reference (geometries (device_ s)) (attached sc) !! h.
Proof.
  intros Hsc. unfold BuildListenerScene.
  step_by reflexivity.
  step_by (eapply engine_rtcReleaseScene; exact Hsc).
  step_by reflexivity.
  step_by reflexivity.
  set (nh := next_handle (device_ s)).
  match goal with |- context [bind (for_range 0 _ _) _ ?st] =>
    destruct (listener_loop_geometries listeners r (length listeners) 0 st
                {| attached := []; committed := false |})
      as (s1 & Hrun & Hgeoms);
    [ done | simpl_state; apply lookup_insert_eq | ];
    destruct (listener_loop listeners r (length listeners) 0 st
                {| attached := []; committed := false |})
      as (s2 & Hrun2 & Hframe & _ & Hscenes & _);
    [ done | simpl_state; apply lookup_insert_eq | ]
  end.
  assert (s2 = s1) as -> by congruence. clear Hrun2.
  step_by (exact Hrun). clear Hrun.
  revert Hframe Hscenes Hgeoms.
  unfold listener_loop_frame. simpl_state. cbn [app length].
  intros (Hs & Hls & _) Hscenes Hgeoms.
  step_by reflexivity.
  step_by (eapply engine_rtcCommitScene; rewrite Hls, Hscenes;
           apply lookup_insert_eq).
  eexists. split; [reflexivity|]. simpl_state. exact Hgeoms.
Qed.

Lemma reachable_if_store_consistent guard init s :
  reachable_if SphereBounds SphereIntersection guard init s ->
  store_consistent s.
Proof.
  induction 1 as [s Hnew|s V T s' _ IH _ Hrun|s K l ok s' _ IH Hrun
                 |s L r s' _ IH Hrun].
  - injection Hnew as <-.
    exists {| attached := []; committed := false |},
           {| attached := []; committed := false |}.
    simpl_state. unfold rtcNewDevice. simpl_state. cbn [app].
    split_and!; [|done|constructor| | |intros h Hh; by apply elem_of_nil in Hh
                 |lia|lia].
    + rewrite insert_insert_ne by done. by rewrite insert_empty.
    + intros h. rewrite lookup_empty, elem_of_nil. split; [by intros [? ?]|done].
    + intros h g. by rewrite lookup_empty.
  - destruct IH as (sc & lsc & Hsc & Hne & Hnd & Hdom & Href & Hlt & Hs1 & Hs2).
    assert (scenes (device_ s) !! scene_ s = Some sc) as Hlive
      by (rewrite Hsc; apply lookup_insert_eq).
    destruct (BuildScene_run V T s sc Hlive)
      as (s1 & g & bi & Hrun1 & Hgeoms & Hscenes & Hnext & _ & Hg & _ & _ & _
          & Hs & Hls & _).
    assert (s1 = s') as -> by congruence.
    exists {| attached := attached sc ++ [next_handle (device_ s)];
              committed := true |}, lsc.
    rewrite Hgeoms, Hscenes, Hnext, Hs, Hls. cbn [attached].
    assert (∀ h, h ∈ (attached sc ++ [next_handle (device_ s)]) ++ attached lsc
                 ↔ h = next_handle (device_ s) ∨ h ∈ attached sc ++ attached lsc)
      as Hmem.
    { intros h. rewrite !elem_of_app, list_elem_of_singleton. tauto. }
    assert (next_handle (device_ s) ∉ attached sc ++ attached lsc) as Hfresh.
    { intros Hin%Hlt. lia. }
    rewrite elem_of_app in Hfresh.
    split_and!; [|done| | | | |lia|lia].
    + by rewrite Hsc, insert_insert_eq.
    + apply NoDup_app in Hnd as (Hnd1 & Hdisj & Hnd2).
      apply NoDup_app. split_and!; [|  |done].
      * apply NoDup_app. split_and!; [done| |apply NoDup_singleton].
        intros h Hh ->%list_elem_of_singleton. tauto.
      * intros h [Hh| ->%list_elem_of_singleton]%elem_of_app; [by apply Hdisj|].
        tauto.
    + intros h. rewrite Hmem.
      destruct (decide (h = next_handle (device_ s))) as [->|Hneq].
      * rewrite lookup_insert_eq. split; [by left|by eexists].
      * rewrite lookup_insert_ne by done. rewrite Hdom. tauto.
    + intros h g'.
      destruct (decide (h = next_handle (device_ s))) as [->|Hneq].
      * rewrite lookup_insert_eq. by intros [= <-].
      * rewrite lookup_insert_ne by done. apply Href.
    + intros h [->|Hh]%Hmem; [lia|]. apply Hlt in Hh. lia.
  - destruct (AssociateReflectionKernelToTriangles_run K l s)
      as (s1 & Hrun1 & _ & _ & Hd & Hs & Hls & _).
    assert (s1 = s') as -> by congruence.
    unfold store_consistent. by rewrite Hd, Hs, Hls.
  - destruct IH as (sc & lsc & Hsc & Hne & Hnd & Hdom & Href & Hlt & Hs1 & Hs2).
    assert (scenes (device_ s) !! listener_scene_ s = Some lsc) as Hlive.
    { rewrite Hsc, lookup_insert_ne by done. apply lookup_singleton_eq. }
    destruct (BuildListenerScene_run L r s lsc Hlive)
      as (s1 & Hrun1 & Hls & Hscenes & Hnext & Hnew & _ & Hs & _).
    assert (s1 = s') as -> by congruence.
    destruct (BuildListenerScene_run_store L r s lsc Hlive)
      as (s1 & Hrun2 & Hold).
    assert (s1 = s') as -> by congruence.
    clear Hrun1 Hrun2.
    set (nh := next_handle (device_ s)) in *.
    apply NoDup_app in Hnd as (Hnd1 & Hdisj & Hnd2).
    assert (∀ h, geometries (device_ s') !! h
                 = if decide (S nh ≤ h < S nh + length L)
                   then (λ listener,
                           listener_geometry SphereBounds SphereIntersection
                             listener r (h - S nh)) <$> L !! (h - S nh)
                   else if decide (h ∈ attached lsc) then None
                        else geometries (device_ s) !! h) as Hgeoms.
    { intros h. case_decide as Hh.
      - destruct (lookup_lt_is_Some_2 L (h - S nh)) as [listener Hl]; [lia|].
        rewrite Hl. cbn. rewrite <-(Hnew _ _ Hl). f_equal. lia.
      - rewrite Hold by done. apply lookup_foldr_drop_reference.
        intros h' g' Hg'. apply Href in Hg'. lia. }
    exists sc, {| attached := seq (S nh) (length L); committed := true |}.
    rewrite Hscenes, Hnext, Hs, Hls. cbn [attached].
    split_and!; [|lia| | | | |lia|lia].
    + rewrite Hsc. rewrite delete_insert_ne by done.
      rewrite delete_singleton_eq. rewrite insert_insert_ne by lia.
      by rewrite insert_empty.
    + apply NoDup_app. split_and!; [done| |apply NoDup_seq].
      intros h Hh Hseq%elem_of_seq.
      assert (h < nh) by (apply Hlt, elem_of_app; by left). lia.
    + intros h. rewrite Hgeoms, elem_of_app, elem_of_seq.
      case_decide as Hh.
      * destruct (lookup_lt_is_Some_2 L (h - S nh)) as [listener ->]; [lia|].
        cbn. split; [intros _; right; lia|by eexists].
      * case_decide as Hin.
        -- split; [by intros [? ?]|]. intros [Hh'|Hh']; [|lia].
           by apply Hdisj in Hh'.
        -- rewrite Hdom, elem_of_app. split; [intros [?|?]; [by left|done]|].
           intros [?|?]; [by left|lia].
    + intros h g. rewrite Hgeoms. case_decide as Hh.
      * destruct (L !! (h - S nh)); cbn; [|done]. by intros [= <-].
      * case_decide; [done|]. apply Href.
    + intros h [Hh|Hh%elem_of_seq]%elem_of_app; [|lia].
      assert (h < nh) by (apply Hlt, elem_of_app; by left). lia.
Qed.

(** X8.  At every reachable state the engine holds the two scenes of the
    manager and no other; the live geometries are exactly those attached
    to the two scenes, none attached twice, and each is referenced by its
    scene only. *)
Theorem reachable_store_is_owned_by_the_scenes init s :
  reachable SphereBounds SphereIntersection init s ->
  ∃ sc lsc,
    scenes (device_ s) = <[scene_ s := sc]> {[listener_scene_ s := lsc]}
    ∧ scene_ s ≠ listener_scene_ s
    ∧ NoDup (attached sc ++ attached lsc)
    ∧ (∀ h, is_Some (geometries (device_ s) !! h)
            ↔ h ∈ attached sc ++ attached lsc)
    ∧ (∀ h g, geometries (device_ s) !! h = Some g -> ref_count g = 1).
Proof.
  intros (sc & lsc & Hscenes & Hne & Hnd & Hdom & Href & _)
    %reachable_if_store_consistent.
  exists sc, lsc. by split_and!.
Qed.

(** X2.  [BuildScene] adds to the world scene and replaces nothing: on a
    reachable state the new mesh is attached behind the meshes of the
    earlier calls, which stay in the store as they were, and the listener
    scene is left alone. *)
Theorem BuildScene_adds_a_mesh init (V : list Vertex) (T : list Triangle)
    s sc :
  reachable SphereBounds SphereIntersection init s ->
  scenes (device_ s) !! scene_ s = Some sc ->
  ∃ s' mesh,
    BuildScene V T s = Some (tt, s')
    ∧ (mesh ∉ attached sc)
    ∧ scenes (device_ s') !! scene_ s'
      = Some {| attached := attached sc ++ [mesh]; committed := true |}
    ∧ (∀ h, h ≠ mesh ->
         geometries (device_ s') !! h = geometries (device_ s) !! h)
    ∧ listener_scene_ s' = listener_scene_ s
    ∧ scenes (device_ s') !! listener_scene_ s'
      = scenes (device_ s) !! listener_scene_ s.
Proof.
  intros Hreach Hsc.
  apply reachable_if_store_consistent in Hreach
    as (sc0 & lsc & Hscenes0 & Hne & _ & _ & _ & Hlt & _).
  assert (sc0 = sc) as ->.
  { rewrite Hscenes0, lookup_insert_eq in Hsc. congruence. }
  destruct (BuildScene_run V T s sc Hsc)
    as (s' & g & bi & Hrun & Hgeoms & Hscenes & _ & _ & _ & _ & _ & _
        & Hs & Hls & _).
  exists s', (next_handle (device_ s)).
  rewrite Hs, Hls, Hscenes, Hgeoms. split_and!; [done| | | |done|].
  - intros Hin. assert (next_handle (device_ s) < next_handle (device_ s)).
    { apply Hlt, elem_of_app. by left. }
    lia.
  - apply lookup_insert_eq.
  - intros h Hh. by apply lookup_insert_ne.
  - by apply lookup_insert_ne.
Qed.

(** X3.  [BuildScene] records the sizes of its two buffers and marks the world
    scene committed; the registry, the two maps and the flag of the
    listener scene are as before the call, so associations made for an
    earlier mesh stay in force. *)
Theorem BuildScene_keeps_the_registry (V : list Vertex) (T : list Triangle)
    s sc :
  scenes (device_ s) !! scene_ s = Some sc ->
  ∃ s',
    BuildScene V T s = Some (tt, s')
    ∧ num_vertices_ s' = length V
    ∧ num_triangles_ s' = length T
    ∧ is_scene_committed_ s' = true
    ∧ is_listener_scene_committed_ s' = is_listener_scene_committed_ s
    ∧ reflections_ s' = reflections_ s
    ∧ triangle_to_reflection_map_ s' = triangle_to_reflection_map_ s
    ∧ sphere_to_listener_map_ s' = sphere_to_listener_map_ s.
Proof.
  intros Hsc.
  destruct (BuildScene_run V T s sc Hsc)
    as (s' & g & bi & Hrun & _ & _ & _ & _ & _ & _ & _ & _ & _ & _ & Hc & Hlc
        & Hrefl & Hmap & Hsphere & Hnv & Hnt).
  exists s'. by split_and!.
Qed.


(** X10.  When every key of the sphere map is below the number of listeners (as
    on a first build, or on a rebuild with no fewer listeners than any
    build before), the keys after [BuildListenerScene] are exactly the
    identifiers of the new scene, each resolving to the listener of the
    same index. *)
Theorem BuildListenerScene_map_is_exact
    (L : list AcousticListener) (r : float) s sc :
  scenes (device_ s) !! listener_scene_ s = Some sc ->
  (∀ id j, sphere_to_listener_map_ s !! id = Some j -> id < length L) ->
  ∃ s',
    BuildListenerScene SphereBounds SphereIntersection L r s = Some (tt, s')
    ∧ dom (sphere_to_listener_map_ s') = list_to_set (seq 0 (length L))
    ∧ ∀ id, sphere_to_listener_map_ s' !! id
            = if decide (id < length L) then Some id else None.
Proof.
  intros Hsc Hkeys.
  destruct (BuildListenerScene_run L r s sc Hsc)
    as (s' & Hrun & _ & _ & _ & _ & Hmap & _).
  assert (∀ id, sphere_to_listener_map_ s' !! id
                = if decide (id < length L) then Some id else None) as Hmap'.
  { intros id. rewrite Hmap. case_decide as Hid; [done|].
    destruct (sphere_to_listener_map_ s !! id) as [j|] eqn:Hj; [|done].
    apply Hkeys in Hj. lia. }
  exists s'. split_and!; [done| |done].
  apply set_eq. intros id.
  rewrite elem_of_dom, elem_of_list_to_set, elem_of_seq, Hmap'.
  case_decide; [|split; [by intros [? ?]|lia]].
  split; [lia|by eexists].
Qed.

(** X11.  The callbacks that [BuildListenerScene] installs fit the geometries it
    installs them on: for the k-th listener, on every primitive index
    below the primitive count of the geometry, the bounds callback run on
    the user data of the geometry returns the bounds of the sphere of
    that listener, and the intersection callback run on one valid ray
    hands that sphere and the ray to the sphere intersection. *)
Theorem installed_callbacks_fit_the_geometry
    (L : list AcousticListener) (r : float) s sc :
  scenes (device_ s) !! listener_scene_ s = Some sc ->
  ∃ s' lsc,
    BuildListenerScene SphereBounds SphereIntersection L r s = Some (tt, s')
    ∧ scenes (device_ s') !! listener_scene_ s' = Some lsc
    ∧ ∀ k listener, L !! k = Some listener ->
        ∃ h g bounds intersect,
          attached lsc !! k = Some h
          ∧ geometries (device_ s') !! h = Some g
          ∧ bounds_function g = Some bounds
          ∧ intersect_function g = Some intersect
          ∧ ∀ prim, prim < user_primitive_count g ->
              let sphere :=
                {| center := (position listener 0, position listener 1,
                              position listener 2);
                   radius := r; geometry_id := k |} in
              (∀ step out,
                 bounds {| bounds_geometryUserPtr := user_data g;
                           bounds_primID := prim;
                           bounds_timeStep := step;
                           bounds_o := out |}
                 = Returned (SphereBounds sphere out))
              ∧ (∀ ray,
                   intersect {| valid := [(-1)%Z];
                                geometryUserPtr := user_data g;
                                primID := prim;
                                rayhit := ray;
                                args_N := 1 |}
                   = Returned
                       {| ray_after := SphereIntersection sphere ray;
                          intersection_calls := [(sphere, ray)] |}).
Proof.
  intros Hsc.
  destruct (BuildListenerScene_run L r s sc Hsc)
    as (s' & Hrun & Hls & Hscenes & _ & Hnew & _).
  exists s', {| attached := seq (S (next_handle (device_ s))) (length L);
                committed := true |}.
  split_and!; [done| |].
  { rewrite Hls, Hscenes. apply lookup_insert_eq. }
  intros k listener Hk.
  assert (k < length L) as Hlt by (by apply lookup_lt_Some in Hk).
  exists (S (next_handle (device_ s)) + k),
    (listener_geometry SphereBounds SphereIntersection listener r k).
  eexists _, _. split_and!; [|by apply Hnew|reflexivity|reflexivity|].
  { cbn. by apply lookup_seq_lt. }
  cbn. intros prim Hprim. assert (prim = 0) as -> by lia. by split.
Qed.

(** ** The destructor *)

Lemma SceneManager_delete_run s sc lsc :
  scenes (device_ s) !! scene_ s = Some sc ->
  scenes (device_ s) !! listener_scene_ s = Some lsc ->
  scene_ s ≠ listener_scene_ s ->
  ∃ s',
    SceneManager_delete s = Some (tt, s')
    ∧ geometries (device_ s')
      = foldr drop_reference
          (foldr drop_reference (geometries (device_ s)) (attached sc))
          (attached lsc)
    ∧ scenes (device_ s')
      = delete (listener_scene_ s) (delete (scene_ s) (scenes (device_ s))).
Proof.
  intros Hsc Hlsc Hne. unfold SceneManager_delete.
  step_by reflexivity.
  step_by (eapply engine_rtcReleaseScene; exact Hsc).
  step_by reflexivity.
  step_by (eapply engine_rtcReleaseScene; simpl_state;
           rewrite lookup_delete_ne by done; exact Hlsc).
  eexists. split; [reflexivity|]. by simpl_state.
Qed.

(** X12.  The destructor leaves nothing behind: run on a reachable state it
    returns, and the device then holds no scene and no geometry. *)
Theorem destructor_releases_everything init s :
  reachable SphereBounds SphereIntersection init s ->
  ∃ s',
    SceneManager_delete s = Some (tt, s')
    ∧ scenes (device_ s') = ∅
    ∧ geometries (device_ s') = ∅.
Proof.
  intros (sc & lsc & Hscenes & Hne & _ & Hdom & Href & _)
    %reachable_if_store_consistent.
  destruct (SceneManager_delete_run s sc lsc) as (s' & Hrun & Hg & Hs); [| |done|].
  { rewrite Hscenes. apply lookup_insert_eq. }
  { rewrite Hscenes, lookup_insert_ne by done. apply lookup_singleton_eq. }
  exists s'. split_and!; [done| |].
  - rewrite Hs, Hscenes, delete_insert_eq, delete_singleton_ne by done.
    apply delete_singleton_eq.
  - rewrite Hg. apply map_eq. intros h. rewrite lookup_empty.
    assert (∀ h' g', geometries (device_ s) !! h' = Some g' -> ref_count g' ≤ 1)
      as Href'.
    { intros h' g' Hg'. apply Href in Hg'. lia. }
    rewrite lookup_foldr_drop_reference.
    2:{ intros h' g'. rewrite lookup_foldr_drop_reference by done.
        case_decide; [done|]. apply Href'. }
    case_decide as Hl; [done|].
    rewrite lookup_foldr_drop_reference by done.
    case_decide as Hw; [done|].
    destruct (geometries (device_ s) !! h) as [g|] eqn:Hgh; [|done].
    exfalso. assert (h ∈ attached sc ++ attached lsc) as Hin.
    { apply Hdom. by eexists. }
    apply elem_of_app in Hin. tauto.
Qed.

(** X13.  On a reachable state every member function returns, whatever
    its arguments.  A run has no result when an engine call reaches an
    object that was destroyed, when a buffer is written outside its bounds
    or when a vector is read out of range: so none of these happens; in
    particular the geometry that is used after its handle was released is
    still alive then, held by its scene. *)
Theorem member_functions_return init s :
  reachable SphereBounds SphereIntersection init s ->
  (∀ V T, ∃ s', BuildScene V T s = Some (tt, s'))
  ∧ (∀ K l, ∃ ok s',
       AssociateReflectionKernelToTriangles K l s = Some (ok, s'))
  ∧ (∀ L r, ∃ s',
       BuildListenerScene SphereBounds SphereIntersection L r s
       = Some (tt, s'))
  ∧ ∃ s', SceneManager_delete s = Some (tt, s').
Proof.
  intros Hreach.
  pose proof (reachable_if_store_consistent _ _ _ Hreach)
    as (sc0 & lsc0 & Hscenes & Hne & _).
  apply reachable_if_live in Hreach as ([sc Hsc] & [lsc Hlsc] & _).
  split_and!.
  - intros V T. destruct (BuildScene_run V T s sc Hsc) as (s' & ? & ? & ? & _).
    by exists s'.
  - intros K l.
    destruct (AssociateReflectionKernelToTriangles_run K l s) as (s' & ? & _).
    by eexists _, s'.
  - intros L r. destruct (BuildListenerScene_run L r s lsc Hlsc) as (s' & ? & _).
    by exists s'.
  - destruct (SceneManager_delete_run s sc lsc Hsc Hlsc Hne) as (s' & ? & _).
    by exists s'.
Qed.

(** ** Building, then associating *)

(** X4.  After [BuildScene] with the triangle buffer T an association call
    succeeds exactly when its indices are below |T|, and on success each
    of them is mapped to the kernel, which sits at the end of the
    registry. *)
Theorem association_after_BuildScene (V : list Vertex) (T : list Triangle)
    (K : ReflectionKernel) (l : list nat) s sc :
  scenes (device_ s) !! scene_ s = Some sc ->
  ∃ s1 ok s2,
    BuildScene V T s = Some (tt, s1)
    ∧ AssociateReflectionKernelToTriangles K l s1 = Some (ok, s2)
    ∧ (ok = true ↔ ∀ i, i ∈ l -> i < length T)
    ∧ reflections_ s2 = reflections_ s ++ [K]
    ∧ (ok = true -> ∀ i, i ∈ l ->
         triangle_to_reflection_map_ s2 !! i = Some (length (reflections_ s))).
Proof.
  intros Hsc.
  destruct (BuildScene_run V T s sc Hsc)
    as (s1 & g & bi & Hrun & _ & _ & _ & _ & _ & _ & _ & _ & _ & _ & _ & _
        & Hrefl & _ & _ & _ & Hnt).
  destruct (AssociateReflectionKernelToTriangles_run K l s1)
    as (s2 & Hrun2 & Hrefl2 & Hmap & _).
  eexists s1, _, s2. split_and!; [exact Hrun|exact Hrun2| | |].
  - rewrite bool_decide_eq_true, Hnt. apply Forall_forall.
  - by rewrite Hrefl2, Hrefl.
  - intros Hall%bool_decide_eq_true i Hi.
    rewrite Hmap, lookup_foldl_insert, in_range_prefix_all, Hrefl by done.
    by rewrite decide_True.
Qed.
End properties.

(** ** The properties on the worked instance *)

(** C1 on the mesh of one triangle (0, 1, 2). *)
Lemma BuildScene_winding_order_witness :
  scenes (device_ example_manager) !! scene_ example_manager
  = Some {| attached := []; committed := false |}
  ∧ ∃ s' sc' mesh g index_buffer,
      BuildScene example_vertices [example_triangle] example_manager
      = Some (tt, s')
      ∧ scenes (device_ s') !! scene_ s' = Some sc'
      ∧ committed sc' = true
      ∧ attached sc' !! 0 = Some mesh
      ∧ geometries (device_ s') !! mesh = Some g
      ∧ geometry_type g = RTC_GEOMETRY_TYPE_TRIANGLE
      ∧ buffers g !! (RTC_BUFFER_TYPE_INDEX, 0) = Some index_buffer
      ∧ length index_buffer = 3
      ∧ ∀ i t, [example_triangle] !! i = Some t ->
          index_buffer !! (3 * i) = Some (Some (I32 (v0 t)))
          ∧ index_buffer !! (3 * i + 1) = Some (Some (I32 (v2 t)))
          ∧ index_buffer !! (3 * i + 2) = Some (Some (I32 (v1 t))).
Proof.
  split; [vm_compute; reflexivity|].
  apply (BuildScene_winding_order example_vertices [example_triangle]
           example_manager {| attached := []; committed := false |}).
  vm_compute. reflexivity.
Defined.

(** C3 on the scene of two triangles: the indices 0 and 1 are in range and
    resolve to the kernel. *)
Lemma association_succeeds_iff_in_range_witness :
  ∃ ok s',
    AssociateReflectionKernelToTriangles brick [0; 1] example_two_triangles
    = Some (ok, s')
    ∧ (ok = true ↔ ∀ i, i ∈ [0; 1] -> i < num_triangles_ example_two_triangles)
    ∧ (ok = true -> ∀ i, i ∈ [0; 1] ->
         triangle_to_reflection_map_ s' !! i
         = Some (length (reflections_ example_two_triangles))
         ∧ reflections_ s' !! length (reflections_ example_two_triangles)
           = Some brick
         ∧ ReflectionKernelForTriangle s' i = Some brick).
Proof.
  apply (association_succeeds_iff_in_range brick [0; 1] example_two_triangles).
Defined.

(** C2 fails on the scene of one triangle: the call with the indices 0 and 1
    reports failure, yet the registry has gained the kernel and triangle 0
    an entry; met in the other order, the indices leave the map alone and
    the registry has grown all the same. *)
Lemma association_failure_mutates_state :
  AssociateReflectionKernelToTriangles brick [0; 1] example_one_triangle
  = Some (false, example_failed)
  ∧ reflections_ example_one_triangle = []
  ∧ reflections_ example_failed = [brick]
  ∧ triangle_to_reflection_map_ example_one_triangle !! 0 = None
  ∧ triangle_to_reflection_map_ example_failed !! 0 = Some 0
  ∧ ∃ s', AssociateReflectionKernelToTriangles brick [1; 0] example_one_triangle
          = Some (false, s')
          ∧ reflections_ s' = [brick].
Proof.
  split_and!; try (vm_compute; reflexivity).
  eexists. split; vm_compute; reflexivity.
Qed.

(** The amended C2 on the same call. *)
Lemma association_failure_is_partial_witness :
  AssociateReflectionKernelToTriangles brick [0; 1] example_one_triangle
  = Some (false, example_failed)
  ∧ (∃ i, i ∈ [0; 1] ∧ num_triangles_ example_one_triangle ≤ i)
  ∧ reflections_ example_failed = reflections_ example_one_triangle ++ [brick]
  ∧ (∀ i, triangle_to_reflection_map_ example_failed !! i
       = if decide (i ∈ in_range_prefix (num_triangles_ example_one_triangle)
                          [0; 1])
         then Some (length (reflections_ example_one_triangle))
         else triangle_to_reflection_map_ example_one_triangle !! i)
  ∧ registry_frame example_one_triangle example_failed.
Proof.
  split; [vm_compute; reflexivity|].
  apply (association_failure_is_partial brick [0; 1] example_one_triangle
           example_failed).
  vm_compute. reflexivity.
Defined.

(** C10 on the scene of two triangles: brick for 0 and 1, then curtain
    for 1. *)
Lemma later_association_wins_witness :
  ReflectionKernelForTriangle example_first 1 = Some brick
  ∧ triangle_to_reflection_map_ example_second !! 1
    = Some (S (length (reflections_ example_two_triangles)))
  ∧ reflections_ example_second
    = reflections_ example_two_triangles ++ [brick; curtain]
  ∧ ReflectionKernelForTriangle example_second 1 = Some curtain.
Proof.
  apply (later_association_wins brick curtain [0; 1] [1]
           example_two_triangles example_first example_second 1).
  - vm_compute. reflexivity.
  - vm_compute. reflexivity.
  - apply list_elem_of_In. vm_compute. tauto.
  - apply list_elem_of_In. vm_compute. tauto.
Defined.

(** C5 on two listeners. *)
Lemma BuildListenerScene_registers_spheres_witness :
  scenes (device_ example_manager) !! listener_scene_ example_manager
  = Some {| attached := []; committed := false |}
  ∧ ∃ s' lsc,
      BuildListenerScene example_SphereBounds example_SphereIntersection
        [example_listener_1; example_listener_2] 1%Z example_manager
      = Some (tt, s')
      ∧ scenes (device_ s') !! listener_scene_ s' = Some lsc
      ∧ committed lsc = true
      ∧ length (attached lsc) = 2
      ∧ ∀ k listener,
          [example_listener_1; example_listener_2] !! k = Some listener ->
          ∃ h g sphere,
            attached lsc !! k = Some h
            ∧ geometries (device_ s') !! h = Some g
            ∧ geometry_type g = RTC_GEOMETRY_TYPE_USER
            ∧ user_primitive_count g = 1
            ∧ user_data g = [sphere]
            ∧ center sphere
              = (position listener 0, position listener 1, position listener 2)
            ∧ radius sphere = 1%Z
            ∧ geometry_id sphere = k
            ∧ bounds_function g
              = Some (EmbreeSphereBoundsFunction example_SphereBounds)
            ∧ intersect_function g
              = Some (EmbreeSphereIntersectFunction example_SphereIntersection)
            ∧ ListenerIndexForGeometry s' k = Some k.
Proof.
  split; [vm_compute; reflexivity|].
  apply (BuildListenerScene_registers_spheres example_SphereBounds
           example_SphereIntersection
           [example_listener_1; example_listener_2] 1%Z example_manager
           {| attached := []; committed := false |}).
  vm_compute. reflexivity.
Defined.

(** C4 fails on a rebuild with fewer listeners: the first build hands out
    the identifiers 0 and 1, the second only 0, and 1 still resolves. *)
Lemma stale_id_survives_rebuild :
  BuildListenerScene example_SphereBounds example_SphereIntersection
    [example_listener_1; example_listener_2] 1%Z example_manager
  = Some (tt, example_two_listeners)
  ∧ BuildListenerScene example_SphereBounds example_SphereIntersection
      [example_listener_1] 1%Z example_two_listeners
    = Some (tt, example_rebuilt)
  ∧ (length ∘ attached <$>
       scenes (device_ example_two_listeners)
         !! listener_scene_ example_two_listeners) = Some 2
  ∧ (length ∘ attached <$>
       scenes (device_ example_rebuilt) !! listener_scene_ example_rebuilt)
    = Some 1
  ∧ sphere_to_listener_map_ example_rebuilt !! 1 = Some 1
  ∧ ListenerIndexForGeometry example_rebuilt 1 = Some 1
  ∧ dom (sphere_to_listener_map_ example_rebuilt) ≠ list_to_set (seq 0 1).
Proof.
  split_and!; try (vm_compute; reflexivity).
  intros Heq.
  assert (1 ∈ dom (sphere_to_listener_map_ example_rebuilt)) as Hin.
  { apply elem_of_dom. exists 1. vm_compute. reflexivity. }
  rewrite Heq in Hin. apply elem_of_list_to_set, elem_of_seq in Hin. lia.
Qed.

(** The amended C4 on that rebuild. *)
Lemma BuildListenerScene_keeps_old_ids_witness :
  scenes (device_ example_two_listeners) !! listener_scene_ example_two_listeners
  = Some {| attached := [3; 4]; committed := true |}
  ∧ ∃ s' lsc,
      BuildListenerScene example_SphereBounds example_SphereIntersection
        [example_listener_1] 1%Z example_two_listeners
      = Some (tt, s')
      ∧ scenes (device_ s') !! listener_scene_ s' = Some lsc
      ∧ length (attached lsc) = 1
      ∧ dom (sphere_to_listener_map_ s')
        = dom (sphere_to_listener_map_ example_two_listeners)
          ∪ list_to_set (seq 0 1)
      ∧ (∀ id, id < 1 -> sphere_to_listener_map_ s' !! id = Some id)
      ∧ (∀ id, 1 ≤ id ->
           sphere_to_listener_map_ s' !! id
           = sphere_to_listener_map_ example_two_listeners !! id).
Proof.
  split; [vm_compute; reflexivity|].
  apply (BuildListenerScene_keeps_old_ids example_SphereBounds
           example_SphereIntersection [example_listener_1] 1%Z
           example_two_listeners {| attached := [3; 4]; committed := true |}).
  vm_compute. reflexivity.
Defined.

(** C6 fails when the scene is rebuilt with fewer triangles: triangle 1 of
    the scene of two keeps its entry when the scene is rebuilt with one. *)
Lemma key_outlives_smaller_scene :
  reachable example_SphereBounds example_SphereIntersection example_init
    example_shrunk
  ∧ triangle_to_reflection_map_ example_shrunk !! 1 = Some 0
  ∧ num_triangles_ example_shrunk = 1
  ∧ ¬ keys_in_range example_shrunk.
Proof.
  split_and!; try (vm_compute; reflexivity).
  - eapply (reachable_BuildScene _ _ _ _ example_associated example_vertices
              [example_triangle]); [|done|vm_compute; reflexivity].
    eapply (reachable_Associate _ _ _ _ example_two_triangles brick [1] true);
      [|vm_compute; reflexivity].
    eapply (reachable_BuildScene _ _ _ _ example_manager example_vertices
              [example_triangle; example_triangle]);
      [|done|vm_compute; reflexivity].
    apply reachable_new. vm_compute. reflexivity.
  - intros Hkeys. specialize (Hkeys 1 0). vm_compute in Hkeys.
    specialize (Hkeys eq_refl). lia.
Qed.

(** The amended C6 on the first two of these calls. *)
Lemma keys_in_range_while_builds_cover_witness :
  reachable_if example_SphereBounds example_SphereIntersection covers_keys
    example_init example_associated
  ∧ keys_in_range example_associated.
Proof.
  assert (reachable_if example_SphereBounds example_SphereIntersection
            covers_keys example_init example_associated) as Hreach.
  { eapply (reachable_Associate _ _ _ _ example_two_triangles brick [1] true);
      [|vm_compute; reflexivity].
    eapply (reachable_BuildScene _ _ _ _ example_manager example_vertices
              [example_triangle; example_triangle]);
      [| |vm_compute; reflexivity].
    - apply reachable_new. vm_compute. reflexivity.
    - intros i j. vm_compute. discriminate. }
  split; [exact Hreach|].
  exact (keys_in_range_while_builds_cover example_SphereBounds
           example_SphereIntersection example_init example_associated Hreach).
Defined.

(** C7 on a single ray. *)
Lemma intersect_adapter_asserts_single_ray_witness :
  EmbreeSphereIntersectFunction example_SphereIntersection example_valid_args
  = AssertionFailed
  ↔ args_N example_valid_args ≠ 1.
Proof.
  apply (intersect_adapter_asserts_single_ray example_SphereIntersection
           example_valid_args).
Defined.



(** ** Further properties on the worked instance *)

Lemma example_one_triangle_reachable :
  reachable example_SphereBounds example_SphereIntersection example_init
    example_one_triangle.
Proof.
  eapply (reachable_BuildScene _ _ _ _ example_manager example_vertices
            [example_triangle]); [|done|vm_compute; reflexivity].
  apply reachable_new. vm_compute. reflexivity.
Qed.

Lemma example_session_reachable :
  reachable example_SphereBounds example_SphereIntersection example_init
    example_session.
Proof.
  eapply (reachable_BuildListenerScene _ _ _ _ example_covered
            [example_listener_1; example_listener_2] 1%Z);
    [|vm_compute; reflexivity].
  eapply (reachable_Associate _ _ _ _ example_one_triangle brick [0] true);
    [|vm_compute; reflexivity].
  apply example_one_triangle_reachable.
Qed.

(** X1: the vertex buffer of the mesh of one triangle. *)
Lemma BuildScene_vertex_buffer_witness :
  ∃ s' sc' mesh g vertex_buffer,
    BuildScene example_vertices [example_triangle] example_manager
    = Some (tt, s')
    ∧ scenes (device_ s') !! scene_ s' = Some sc'
    ∧ attached sc' !! 0 = Some mesh
    ∧ geometries (device_ s') !! mesh = Some g
    ∧ buffers g !! (RTC_BUFFER_TYPE_VERTEX, 0) = Some vertex_buffer
    ∧ length vertex_buffer = 4 * 3
    ∧ ∀ i v, example_vertices !! i = Some v ->
        vertex_buffer !! (4 * i) = Some (Some (F32 (vertex_x v)))
        ∧ vertex_buffer !! (4 * i + 1) = Some (Some (F32 (vertex_y v)))
        ∧ vertex_buffer !! (4 * i + 2) = Some (Some (F32 (vertex_z v)))
        ∧ vertex_buffer !! (4 * i + 3) = Some None.
Proof.
  apply (BuildScene_vertex_buffer example_vertices [example_triangle]
           example_manager {| attached := []; committed := false |}).
  vm_compute. reflexivity.
Defined.

(** X2: a second mesh on the scene of one triangle. *)
Lemma BuildScene_adds_a_mesh_witness :
  ∃ s' mesh,
    BuildScene example_vertices [example_triangle; example_triangle]
      example_one_triangle
    = Some (tt, s')
    ∧ (mesh ∉ [2])
    ∧ scenes (device_ s') !! scene_ s'
      = Some {| attached := [2] ++ [mesh]; committed := true |}
    ∧ (∀ h, h ≠ mesh ->
         geometries (device_ s') !! h
         = geometries (device_ example_one_triangle) !! h)
    ∧ listener_scene_ s' = listener_scene_ example_one_triangle
    ∧ scenes (device_ s') !! listener_scene_ s'
      = scenes (device_ example_one_triangle)
          !! listener_scene_ example_one_triangle.
Proof.
  apply (BuildScene_adds_a_mesh example_SphereBounds example_SphereIntersection
           example_init example_vertices [example_triangle; example_triangle]
           example_one_triangle {| attached := [2]; committed := true |}).
  - apply example_one_triangle_reachable.
  - vm_compute. reflexivity.
Defined.

(** X3: a rebuild of the mesh under the kernel of triangle 0. *)
Lemma BuildScene_keeps_the_registry_witness :
  ∃ s',
    BuildScene example_vertices [example_triangle; example_triangle]
      example_covered
    = Some (tt, s')
    ∧ num_vertices_ s' = 3
    ∧ num_triangles_ s' = 2
    ∧ is_scene_committed_ s' = true
    ∧ is_listener_scene_committed_ s'
      = is_listener_scene_committed_ example_covered
    ∧ reflections_ s' = reflections_ example_covered
    ∧ triangle_to_reflection_map_ s'
      = triangle_to_reflection_map_ example_covered
    ∧ sphere_to_listener_map_ s' = sphere_to_listener_map_ example_covered.
Proof.
  apply (BuildScene_keeps_the_registry example_vertices
           [example_triangle; example_triangle] example_covered
           {| attached := [2]; committed := true |}).
  vm_compute. reflexivity.
Defined.

(** X6: the two orders of the index set {0, 1}. *)
Lemma association_order_irrelevant_witness :
  ∃ ok s1 s2,
    AssociateReflectionKernelToTriangles brick [0; 1] example_two_triangles
    = Some (ok, s1)
    ∧ AssociateReflectionKernelToTriangles brick [1; 0] example_two_triangles
      = Some (ok, s2)
    ∧ reflections_ s1 = reflections_ s2
    ∧ (ok = true -> s1 = s2).
Proof.
  apply (association_order_irrelevant brick [0; 1] [1; 0] example_two_triangles).
  apply perm_swap.
Defined.

(** X7: triangle 0 of the session resolves to brick. *)
Lemma associated_triangles_resolve_witness :
  0 < length (reflections_ example_session)
  ∧ ∃ K, reflections_ example_session !! 0 = Some K
         ∧ ReflectionKernelForTriangle example_session 0 = Some K.
Proof.
  apply (associated_triangles_resolve example_SphereBounds
           example_SphereIntersection example_init example_session 0 0).
  - apply example_session_reachable.
  - vm_compute. reflexivity.
Defined.

(** X4: an index below and an index above the size of the mesh just built. *)
Lemma association_after_BuildScene_witness :
  ∃ s1 ok s2,
    BuildScene example_vertices [example_triangle] example_manager
    = Some (tt, s1)
    ∧ AssociateReflectionKernelToTriangles brick [0; 1] s1 = Some (ok, s2)
    ∧ (ok = true ↔ ∀ i, i ∈ [0; 1] -> i < 1)
    ∧ reflections_ s2 = reflections_ example_manager ++ [brick]
    ∧ (ok = true -> ∀ i, i ∈ [0; 1] ->
         triangle_to_reflection_map_ s2 !! i
         = Some (length (reflections_ example_manager))).
Proof.
  apply (association_after_BuildScene example_vertices [example_triangle]
           brick [0; 1] example_manager {| attached := []; committed := false |}).
  vm_compute. reflexivity.
Defined.

(** X8: the store of the session. *)
Lemma reachable_store_is_owned_by_the_scenes_witness :
  ∃ sc lsc,
    scenes (device_ example_session)
    = <[scene_ example_session := sc]> {[listener_scene_ example_session := lsc]}
    ∧ scene_ example_session ≠ listener_scene_ example_session
    ∧ NoDup (attached sc ++ attached lsc)
    ∧ (∀ h, is_Some (geometries (device_ example_session) !! h)
            ↔ h ∈ attached sc ++ attached lsc)
    ∧ (∀ h g, geometries (device_ example_session) !! h = Some g ->
              ref_count g = 1).
Proof.
  apply (reachable_store_is_owned_by_the_scenes example_SphereBounds
           example_SphereIntersection example_init example_session).
  apply example_session_reachable.
Defined.


(** X10: the first build of a listener scene, on the fresh manager. *)
Lemma BuildListenerScene_map_is_exact_witness :
  ∃ s',
    BuildListenerScene example_SphereBounds example_SphereIntersection
      [example_listener_1; example_listener_2] 1%Z example_manager
    = Some (tt, s')
    ∧ dom (sphere_to_listener_map_ s') = list_to_set (seq 0 2)
    ∧ ∀ id, sphere_to_listener_map_ s' !! id
            = if decide (id < 2) then Some id else None.
Proof.
  apply (BuildListenerScene_map_is_exact example_SphereBounds
           example_SphereIntersection
           [example_listener_1; example_listener_2] 1%Z example_manager
           {| attached := []; committed := false |}).
  - vm_compute. reflexivity.
  - intros id j. vm_compute. discriminate.
Defined.

(** X11: the callbacks of the two listeners of the fresh manager. *)
Lemma installed_callbacks_fit_the_geometry_witness :
  ∃ s' lsc,
    BuildListenerScene example_SphereBounds example_SphereIntersection
      [example_listener_1; example_listener_2] 1%Z example_manager
    = Some (tt, s')
    ∧ scenes (device_ s') !! listener_scene_ s' = Some lsc
    ∧ ∀ k listener,
        [example_listener_1; example_listener_2] !! k = Some listener ->
        ∃ h g bounds intersect,
          attached lsc !! k = Some h
          ∧ geometries (device_ s') !! h = Some g
          ∧ bounds_function g = Some bounds
          ∧ intersect_function g = Some intersect
          ∧ ∀ prim, prim < user_primitive_count g ->
              let sphere :=
                {| center := (position listener 0, position listener 1,
                              position listener 2);
                   radius := 1%Z; geometry_id := k |} in
              (∀ step out,
                 bounds {| bounds_geometryUserPtr := user_data g;
                           bounds_primID := prim;
                           bounds_timeStep := step;
                           bounds_o := out |}
                 = Returned (example_SphereBounds sphere out))
              ∧ (∀ ray,
                   intersect {| valid := [(-1)%Z];
                                geometryUserPtr := user_data g;
                                primID := prim;
                                rayhit := ray;
                                args_N := 1 |}
                   = Returned
                       {| ray_after := example_SphereIntersection sphere ray;
                          intersection_calls := [(sphere, ray)] |}).
Proof.
  apply (installed_callbacks_fit_the_geometry example_SphereBounds
           example_SphereIntersection
           [example_listener_1; example_listener_2] 1%Z example_manager
           {| attached := []; committed := false |}).
  vm_compute. reflexivity.
Defined.

(** X12: the end of the session. *)
Lemma destructor_releases_everything_witness :
  ∃ s',
    SceneManager_delete example_session = Some (tt, s')
    ∧ scenes (device_ s') = ∅
    ∧ geometries (device_ s') = ∅.
Proof.
  apply (destructor_releases_everything example_SphereBounds
           example_SphereIntersection example_init example_session).
  apply example_session_reachable.
Defined.

(** X13: every member function returns on the session. *)
Lemma member_functions_return_witness :
  (∀ V T, ∃ s', BuildScene V T example_session = Some (tt, s'))
  ∧ (∀ K l, ∃ ok s',
       AssociateReflectionKernelToTriangles K l example_session
       = Some (ok, s'))
  ∧ (∀ L r, ∃ s',
       BuildListenerScene example_SphereBounds example_SphereIntersection
         L r example_session
       = Some (tt, s'))
  ∧ ∃ s', SceneManager_delete example_session = Some (tt, s').
Proof.
  apply (member_functions_return example_SphereBounds
           example_SphereIntersection example_init example_session).
  apply example_session_reachable.
Defined.
